(** * tcp-sock: a TCP socket utility layer over the BSD socket calls

    Shallow embedding of [src/src/tcp-sock.c].  Every function of the file
    is a short sequence of calls into the operating system, so the model
    is a small monad that threads the log of the calls made so far and
    asks an oracle (the operating system) for the answer to each call.
    [exit] ends the run with an [Exited] outcome.  Messages and format
    strings are kept as the source writes them. *)

From Stdlib Require Import ZArith String Strings.Byte List Lia.
From stdpp Require Import base tactics option list gmap.

Open Scope Z_scope.

(** ** Machine integers *)

(** [int] is 32 bits wide and signed; [to_int] is the conversion of a wider
    value to [int]: two's complement wrap-around.  It is also what the
    compiled code computes for an [int] product that leaves the range (a case
    the C standard leaves undefined). *)
Definition INT_MIN : Z := - 2 ^ 31.
Definition INT_MAX : Z := 2 ^ 31 - 1.

Definition to_int (z : Z) : Z := (z + 2 ^ 31) mod 2 ^ 32 - 2 ^ 31.

Definition in_int (z : Z) : Prop := INT_MIN <= z <= INT_MAX.

(** [htons]: the argument is converted to [uint16_t] and its two bytes are
    swapped (little-endian host). *)
Definition htons (x : Z) : Z :=
  let u := x mod 2 ^ 16 in
  Z.lor (Z.shiftl (Z.land u 255) 8) (Z.shiftr u 8).

Definition ntohs (x : Z) : Z := htons x.

(** ** Constants of the system headers (Linux) *)

Definition AF_INET : Z := 2.
Definition SOCK_STREAM : Z := 1.
Definition SOL_SOCKET : Z := 1.
Definition IPPROTO_TCP : Z := 6.
Definition SO_REUSEADDR : Z := 2.
Definition SO_REUSEPORT : Z := 15.
Definition SO_KEEPALIVE : Z := 9.
Definition SO_SNDBUF : Z := 7.
Definition SO_RCVBUF : Z := 8.
Definition TCP_KEEPIDLE : Z := 4.
Definition TCP_KEEPINTVL : Z := 5.
Definition TCP_KEEPCNT : Z := 6.
Definition MSG_PEEK : Z := 2.
Definition MSG_DONTWAIT : Z := 64.
Definition EXIT_FAILURE : Z := 1.
Definition INADDR_ANY : list byte := [x00; x00; x00; x00].

(** Linux transfers at most [MAX_RW_COUNT] bytes in one call
    ([INT_MAX & PAGE_MASK]). *)
Definition MAX_RW_COUNT : Z := 2147479552.

(** ** Data *)

(** [struct sockaddr_in]; [sin_port] is in network byte order and
    [sin_addr] is the four bytes of [struct in_addr]. *)
Record sockaddr_in := mk_sockaddr_in {
  sin_family : Z;
  sin_port : Z;
  sin_addr : list byte
}.

Record timeval := mk_timeval {
  tv_sec : Z;
  tv_usec : Z
}.

(** The calls the file makes.  Lengths that the source writes as a
    [sizeof] are kept as the last argument ([optlen], [addrlen]). *)
Inductive call : Type :=
| sys_socket (domain type protocol : Z)
| sys_bind (fd : Z) (addr : sockaddr_in) (addrlen : Z)
| sys_listen (fd backlog : Z)
| sys_connect (fd : Z) (addr : sockaddr_in) (addrlen : Z)
| sys_setsockopt (fd level optname optval optlen : Z)
| sys_close (fd : Z)
| sys_inet_pton (af : Z) (src : string)
| sys_send (fd : Z) (buf : list byte) (len flags : Z)
| sys_recv (fd : Z) (len flags : Z)
| sys_select (nfds : Z) (readfds : list Z) (tv : timeval)
| sys_perror (msg : string)
| sys_printf (fmt : string) (args : list Z)
| sys_fprintf_stderr (fmt : string) (args : list Z).

(** What a call gives back: its return value and, for the calls that fill
    a buffer of the caller ([recv], [inet_pton]), the bytes stored there. *)
Record answer := mk_answer {
  ret : Z;
  out : list byte
}.

Definition event : Type := call * answer.

(** The operating system: the answer to a call may depend on everything
    that happened before. *)
Definition os : Type := list event -> call -> answer.

(** ** The monad of the embedding *)

Inductive outcome (A : Type) : Type :=
| Returned (a : A)
| Exited (status : Z)
| Fault.

Arguments Returned {A} a.
Arguments Exited {A} status.
Arguments Fault {A}.

Definition M (A : Type) : Type := os -> list event -> list event * outcome A.

Definition mreturn {A : Type} (a : A) : M A := fun _ h => (h, Returned a).

Definition and_then {A B : Type} (m : M A) (f : A -> M B) : M B :=
  fun o h =>
    match m o h with
    | (h', Returned a) => f a o h'
    | (h', Exited s) => (h', Exited s)
    | (h', Fault) => (h', Fault)
    end.

Definition syscall (c : call) : M answer :=
  fun o h => let a := o h c in (h ++ [(c, a)], Returned a).

Definition exit {A : Type} (status : Z) : M A := fun _ h => (h, Exited status).

Definition fault {A : Type} : M A := fun _ h => (h, Fault).

Declare Scope sock_scope.
Delimit Scope sock_scope with sock.
Notation "x <- c1 ;; c2" := (and_then c1 (fun x => c2))
  (at level 100, c1 at next level, right associativity) : sock_scope.
Notation "c1 ;; c2" := (and_then c1 (fun _ => c2))
  (at level 100, right associativity) : sock_scope.
Open Scope sock_scope.

(** The wrappers of the calls, returning what the C call returns. *)
Definition socket (domain type protocol : Z) : M Z :=
  a <- syscall (sys_socket domain type protocol) ;; mreturn (ret a).
Definition bind (fd : Z) (addr : sockaddr_in) (addrlen : Z) : M Z :=
  a <- syscall (sys_bind fd addr addrlen) ;; mreturn (ret a).
Definition listen (fd backlog : Z) : M Z :=
  a <- syscall (sys_listen fd backlog) ;; mreturn (ret a).
Definition connect (fd : Z) (addr : sockaddr_in) (addrlen : Z) : M Z :=
  a <- syscall (sys_connect fd addr addrlen) ;; mreturn (ret a).
Definition setsockopt (fd level optname optval optlen : Z) : M Z :=
  a <- syscall (sys_setsockopt fd level optname optval optlen) ;; mreturn (ret a).
Definition close (fd : Z) : M Z :=
  a <- syscall (sys_close fd) ;; mreturn (ret a).
Definition inet_pton (af : Z) (src : string) : M (Z * list byte) :=
  a <- syscall (sys_inet_pton af src) ;; mreturn (ret a, out a).
Definition send (fd : Z) (buf : list byte) (len flags : Z) : M Z :=
  a <- syscall (sys_send fd buf len flags) ;; mreturn (ret a).
Definition select (nfds : Z) (readfds : list Z) (tv : timeval) : M Z :=
  a <- syscall (sys_select nfds readfds tv) ;; mreturn (ret a).
Definition perror (msg : string) : M unit :=
  syscall (sys_perror msg) ;; mreturn tt.
Definition printf (fmt : string) (args : list Z) : M unit :=
  syscall (sys_printf fmt args) ;; mreturn tt.
Definition fprintf_stderr (fmt : string) (args : list Z) : M unit :=
  syscall (sys_fprintf_stderr fmt args) ;; mreturn tt.

(** [recv] stores the received bytes at the start of the caller's buffer
    and returns the count. *)
Definition store_bytes (buf data : list byte) : list byte :=
  data ++ drop (length data) buf.

Definition recv (fd : Z) (buf : list byte) (len flags : Z) : M (Z * list byte) :=
  a <- syscall (sys_recv fd len flags) ;; mreturn (ret a, store_bytes buf (out a)).

(** ** The functions of tcp-sock.c *)

Definition sizeof_int : Z := 4.
Definition sizeof_sockaddr_in : Z := 16.

Definition isPortAvailable (iPort : Z) : M Z :=
  iSock <- socket AF_INET SOCK_STREAM 0 ;;
  if iSock <? 0 then mreturn (-1)
  else
    let addr := mk_sockaddr_in AF_INET (htons iPort) INADDR_ANY in
    iResult <- bind iSock addr sizeof_sockaddr_in ;;
    close iSock ;;
    mreturn (if iResult =? 0 then 0 else -1).

Definition createServerSocket (iPort iMaxClients : Z) : M Z :=
  let iSockOpt := 1 in
  iServerSock <- socket AF_INET SOCK_STREAM 0 ;;
  if iServerSock =? 0 then (perror "Socket failed" ;; exit EXIT_FAILURE) else
  r <- setsockopt iServerSock SOL_SOCKET (Z.lor SO_REUSEADDR SO_REUSEPORT)
         iSockOpt sizeof_int ;;
  if negb (r =? 0) then (perror "Setsockopt failed" ;; exit EXIT_FAILURE) else
  let keepalive := 1 in
  let keepidle := 10 in
  let keepinterval := 5 in
  let keepcount := 3 in
  r <- setsockopt iServerSock SOL_SOCKET SO_KEEPALIVE keepalive sizeof_int ;;
  if r <? 0 then (perror "Setsockopt SO_KEEPALIVE failed" ;; exit EXIT_FAILURE) else
  r <- setsockopt iServerSock IPPROTO_TCP TCP_KEEPIDLE keepidle sizeof_int ;;
  if r <? 0 then (perror "Setsockopt TCP_KEEPIDLE failed" ;; exit EXIT_FAILURE) else
  r <- setsockopt iServerSock IPPROTO_TCP TCP_KEEPINTVL keepinterval sizeof_int ;;
  if r <? 0 then (perror "Setsockopt TCP_KEEPINTVL failed" ;; exit EXIT_FAILURE) else
  r <- setsockopt iServerSock IPPROTO_TCP TCP_KEEPCNT keepcount sizeof_int ;;
  if r <? 0 then (perror "Setsockopt TCP_KEEPCNT failed" ;; exit EXIT_FAILURE) else
  let stSockAddr := mk_sockaddr_in AF_INET (htons iPort) INADDR_ANY in
  r <- bind iServerSock stSockAddr sizeof_sockaddr_in ;;
  if r <? 0 then (perror "Bind failed" ;; exit EXIT_FAILURE) else
  r <- listen iServerSock iMaxClients ;;
  if r <? 0 then (perror "Listen failed" ;; exit EXIT_FAILURE) else
  mreturn iServerSock.

Definition createClientSocket (kpchIp : string) (iPort : Z) : M Z :=
  iSock <- socket AF_INET SOCK_STREAM 0 ;;
  if iSock <? 0 then (perror "Socket creation error" ;; mreturn (-1)) else
  p <- inet_pton AF_INET kpchIp ;;
  if p.1 <=? 0 then
    (perror "Invalid address/ Address not supported" ;; mreturn (-1))
  else
  let stSockServAddr := mk_sockaddr_in AF_INET (htons iPort) p.2 in
  r <- connect iSock stSockServAddr sizeof_sockaddr_in ;;
  if r <? 0 then (perror "Connection failed" ;; mreturn (-1)) else
  mreturn iSock.

Definition handleClientDisconnection (iClientSockfd : Z) : M unit :=
  printf "Client disconnected, closing socket\n" [] ;;
  close iClientSockfd ;;
  mreturn tt.

(** The client array is a list updated by index; an access outside the
    list is a [Fault] (the C code would touch memory it does not own). *)
Definition load (arr : list Z) (i : nat) : M Z :=
  match arr !! i with
  | Some v => mreturn v
  | None => fault
  end.

Definition store (arr : list Z) (i : nat) (v : Z) : M (list Z) :=
  if bool_decide (i < length arr)%nat then mreturn (<[i := v]> arr) else fault.

(** The body of the loop of [checkClientConnections] at index [i].  The
    one-byte [buffer] is a local whose content is never looked at. *)
Definition check_slot (piClientSockets : list Z) (i : nat) : M (list Z) :=
  s <- load piClientSockets i ;;
  if negb (s =? 0) then
    let buffer := [x00] in
    s1 <- load piClientSockets i ;;
    r <- recv s1 buffer 1 (Z.lor MSG_PEEK MSG_DONTWAIT) ;;
    let result := to_int r.1 in
    if result =? 0 then
      s2 <- load piClientSockets i ;;
      printf "Client socket %d appears to have disconnected\n" [s2] ;;
      s3 <- load piClientSockets i ;;
      handleClientDisconnection s3 ;;
      store piClientSockets i 0
    else mreturn piClientSockets
  else mreturn piClientSockets.

(** [for (int i = 0; i < iMaxClients; i++)]: [n] iterations are left and
    the loop variable is [i]. *)
Fixpoint check_loop (n i : nat) (piClientSockets : list Z) : M (list Z) :=
  match n with
  | O => mreturn piClientSockets
  | S n' =>
      arr <- check_slot piClientSockets i ;;
      check_loop n' (S i) arr
  end.

Definition checkClientConnections (piClientSockets : list Z) (iMaxClients : Z)
  : M (list Z) :=
  check_loop (Z.to_nat iMaxClients) 0%nat piClientSockets.

Definition setSocketBufferSize (iSock iRxSize iTxSize : Z) : M unit :=
  r <- setsockopt iSock SOL_SOCKET SO_RCVBUF iRxSize sizeof_int ;;
  if r <? 0 then (perror "Setsockopt SO_RCVBUF failed" ;; exit EXIT_FAILURE) else
  r <- setsockopt iSock SOL_SOCKET SO_SNDBUF iTxSize sizeof_int ;;
  if r <? 0 then (perror "Setsockopt SO_SNDBUF failed" ;; exit EXIT_FAILURE) else
  mreturn tt.

Definition sendMessage (iSock : Z) (cpvBuffer : list byte) (iLength : Z) : M Z :=
  sent <- send iSock cpvBuffer iLength 0 ;;
  if sent <? 0 then (perror "send failed" ;; mreturn (-1)) else
  mreturn (to_int sent).

(** The receive functions give back the [int] they return and the content
    of the caller's buffer afterwards. *)
Definition recvMsgBlocking (iSock : Z) (pvBuffer : list byte) (iLength : Z)
  : M (Z * list byte) :=
  r <- recv iSock pvBuffer iLength 0 ;;
  let received := r.1 in
  if received <? 0 then (perror "recv failed" ;; mreturn (-1, r.2)) else
  mreturn (to_int received, r.2).

(** [struct timeval] that [recvMsgTimeout] hands to [select]: the product
    is an [int] product. *)
Definition timeout_of (iTimeoutMsec : Z) : timeval :=
  mk_timeval 0 (to_int (iTimeoutMsec * 1000)).

Section Sentinels.

(** [TCP_TIME_OUT] and [TCP_DISCONNECTION] are macros that tcp-sock.c
    uses and the header at hand does not define: they are parameters. *)
Variables TCP_TIME_OUT TCP_DISCONNECTION : Z.

Definition recvMsgTimeout (iSock : Z) (pvBuffer : list byte)
    (iLength iTimeoutMsec : Z) : M (Z * list byte) :=
  let read_fds := [iSock] in
  let timeout := timeout_of iTimeoutMsec in
  r <- select (to_int (iSock + 1)) read_fds timeout ;;
  if r <? 0 then (perror "select error" ;; mreturn (-1, pvBuffer))
  else if r =? 0 then
    (fprintf_stderr "Timeout: no data received within %d seconds.\n"
       [iTimeoutMsec] ;;
     mreturn (TCP_TIME_OUT, pvBuffer))
  else
  rc <- recv iSock pvBuffer iLength 0 ;;
  let received := rc.1 in
  if received <? 0 then (perror "recv failed" ;; mreturn (-1, rc.2))
  else if received =? 0 then mreturn (TCP_DISCONNECTION, rc.2)
  else mreturn (to_int received, rc.2).

End Sentinels.

(** ** Reading a log *)

(** The calls of a log, in order. *)
Definition calls_of (log : list event) : list call := log.*1.

Definition is_recv (c : call) : bool :=
  match c with sys_recv _ _ _ => true | _ => false end.

Definition is_close (c : call) : bool :=
  match c with sys_close _ => true | _ => false end.

(** The calls of the socket interface, whose negative return reports a
    failure; the diagnostic prints are not among them. *)
Definition is_socket_call (c : call) : bool :=
  match c with
  | sys_perror _ | sys_printf _ _ | sys_fprintf_stderr _ _ => false
  | _ => true
  end.

(** The descriptor a call works on, if any. *)
Definition fd_of (c : call) : option Z :=
  match c with
  | sys_bind fd _ _ | sys_listen fd _ | sys_connect fd _ _
  | sys_setsockopt fd _ _ _ _ | sys_close fd | sys_send fd _ _ _
  | sys_recv fd _ _ => Some fd
  | _ => None
  end.

(** The descriptor table that a log leaves behind: [socket] opens an entry,
    a successful [setsockopt], [bind], [listen] or [connect] updates the
    entry of its descriptor, and [close] removes it. *)
Record sock := mk_sock {
  so_opts : gmap (Z * Z) Z;
  so_bound : option sockaddr_in;
  so_backlog : option Z;
  so_peer : option sockaddr_in
}.

Definition new_sock : sock := mk_sock ∅ None None None.

Definition apply_event (t : gmap Z sock) (e : event) : gmap Z sock :=
  let succeeded := 0 <=? ret e.2 in
  match e.1 with
  | sys_socket _ _ _ =>
      if succeeded then <[ret e.2 := new_sock]> t else t
  | sys_setsockopt fd level optname optval _ =>
      if succeeded then
        alter (fun s => mk_sock (<[(level, optname) := optval]> (so_opts s))
                          (so_bound s) (so_backlog s) (so_peer s)) fd t
      else t
  | sys_bind fd addr _ =>
      if succeeded then
        alter (fun s => mk_sock (so_opts s) (Some addr) (so_backlog s) (so_peer s)) fd t
      else t
  | sys_listen fd backlog =>
      if succeeded then
        alter (fun s => mk_sock (so_opts s) (so_bound s) (Some backlog) (so_peer s)) fd t
      else t
  | sys_connect fd addr _ =>
      if succeeded then
        alter (fun s => mk_sock (so_opts s) (so_bound s) (so_backlog s) (Some addr)) fd t
      else t
  | sys_close fd => delete fd t
  | _ => t
  end.

Definition fd_table (log : list event) : gmap Z sock := foldl apply_event ∅ log.

(** [getsockopt] on the table. *)
Definition getsockopt (log : list event) (fd level optname : Z) : option Z :=
  s ← fd_table log !! fd; so_opts s !! (level, optname).

Definition is_open (log : list event) (fd : Z) : Prop := is_Some (fd_table log !! fd).

(** The log after the calls [cs] have been made in this order, starting
    from the log [h]: each call is answered by the operating system. *)
Fixpoint play (o : os) (h : list event) (cs : list call) : list event :=
  match cs with
  | [] => h
  | c :: cs' => play o (h ++ [(c, o h c)]) cs'
  end.

(** The answer to the call [c] when it comes after the calls [cs]. *)
Definition answer_after (o : os) (h : list event) (cs : list call) (c : call) : answer :=
  o (play o h cs) c.

Definition count_in (p : call -> bool) (cs : list call) : nat :=
  length (filter (fun c => p c = true) cs).

(** The events that the calls [cs] add to the log [h]. *)
Definition events (o : os) (h : list event) (cs : list call) : list event :=
  drop (length h) (play o h cs).

(** The calls [checkClientConnections] makes for a descriptor [fd]. *)
Definition peek (fd : Z) : call := sys_recv fd 1 (Z.lor MSG_PEEK MSG_DONTWAIT).

Definition disconnect_calls (fd : Z) : list call :=
  [peek fd;
   sys_printf "Client socket %d appears to have disconnected\n" [fd];
   sys_printf "Client disconnected, closing socket\n" [];
   sys_close fd].

(** What the scan does with one slot that holds [fd], when the log is [hk]
    as the scan reaches it: [seg] are the events the slot adds and [final] is
    the content of the slot afterwards. *)
Definition slot_ok (o : os) (hk : list event) (fd : Z) (seg : list event)
    (final : option Z) : Prop :=
  (fd = 0 -> seg = [] /\ final = Some 0)
  /\ (fd <> 0 ->
      (to_int (ret (o hk (peek fd))) = 0 ->
         seg = events o hk (disconnect_calls fd) /\ final = Some 0)
      /\ (to_int (ret (o hk (peek fd))) <> 0 ->
         seg = events o hk [peek fd] /\ final = Some fd)).

(** ** What is assumed of the operating system *)

(** A call on a descriptor that is not open fails; the model needs it for
    [setsockopt] on a negative descriptor only ([EBADF]). *)
Definition rejects_bad_fd (o : os) : Prop :=
  forall h fd level optname optval optlen,
    fd < 0 -> ret (o h (sys_setsockopt fd level optname optval optlen)) = -1.

(** [recv] returns -1 or the number of bytes it stored, which is at most
    [MAX_RW_COUNT]. *)
Definition recv_in_range (o : os) : Prop :=
  forall h fd len flags,
    -1 <= ret (o h (sys_recv fd len flags)) <= MAX_RW_COUNT.

(** An operating system that answers by the kind of call. *)
Definition by_call (f : call -> Z) : os := fun _ c => mk_answer (f c) [].

(** A peer that has sent the fourteen bytes of the test suite's message:
    [select] reports one readable descriptor and [recv] delivers them; every
    other call returns 0. *)
Definition hello : list byte := list_byte_of_string "Hello, server!".

Definition os_hello : os :=
  fun _ c =>
    match c with
    | sys_select _ _ _ => mk_answer 1 []
    | sys_recv _ _ _ => mk_answer 14 hello
    | _ => mk_answer 0 []
    end.

(** A system on which every call succeeds: [socket] gives descriptor 3,
    [inet_pton] accepts the address, [setsockopt] refuses a negative
    descriptor and otherwise succeeds, everything else returns 0. *)
Definition os_up : os :=
  fun _ c =>
    match c with
    | sys_socket _ _ _ => mk_answer 3 []
    | sys_inet_pton _ _ => mk_answer 1 [x7f; x00; x00; x01]
    | sys_setsockopt fd _ _ _ _ => mk_answer (if fd <? 0 then -1 else 0) []
    | _ => mk_answer 0 []
    end.

(** A system that has no descriptor left: [socket] fails. *)
Definition os_no_socket : os :=
  by_call (fun c =>
    match c with
    | sys_socket _ _ _ => -1
    | sys_setsockopt fd _ _ _ _ => if fd <? 0 then -1 else 0
    | _ => 0
    end).

(** A system that, against its contract, lets every call succeed on any
    descriptor, after a [socket] that failed. *)
Definition os_lenient : os :=
  by_call (fun c => match c with sys_socket _ _ _ => -1 | _ => 0 end).

(** A system on which nobody listens at the far end: [connect] fails. *)
Definition os_refused : os :=
  by_call (fun c =>
    match c with
    | sys_socket _ _ _ => 3
    | sys_inet_pton _ _ => 1
    | sys_connect _ _ _ => -1
    | _ => 0
    end).

(** Three clients: the peer of descriptor 4 has closed (the peek returns
    0), every other descriptor has nothing to read (the peek returns -1). *)
Definition os_clients : os :=
  by_call (fun c =>
    match c with
    | sys_recv fd _ _ => if fd =? 4 then 0 else -1
    | _ => 0
    end).

(** ** Further readings of a log and further systems *)

Definition is_send (c : call) : bool :=
  match c with sys_send _ _ _ _ => true | _ => false end.

(** The calls that leave the descriptor table as it is. *)
Definition is_inert (c : call) : bool :=
  match c with
  | sys_send _ _ _ _ | sys_recv _ _ _ | sys_select _ _ _ | sys_inet_pton _ _
  | sys_perror _ | sys_printf _ _ | sys_fprintf_stderr _ _ => true
  | _ => false
  end.

(** [send] returns -1 or the number of bytes it took, which is at most
    [MAX_RW_COUNT]. *)
Definition send_in_range (o : os) : Prop :=
  forall h fd buf len flags,
    -1 <= ret (o h (sys_send fd buf len flags)) <= MAX_RW_COUNT.

(** The calls of [createServerSocket] on the descriptor [fd], in the order
    of the source. *)
Definition setup_calls (fd iPort iMaxClients : Z) : list call :=
  [sys_socket AF_INET SOCK_STREAM 0;
   sys_setsockopt fd SOL_SOCKET (Z.lor SO_REUSEADDR SO_REUSEPORT) 1 sizeof_int;
   sys_setsockopt fd SOL_SOCKET SO_KEEPALIVE 1 sizeof_int;
   sys_setsockopt fd IPPROTO_TCP TCP_KEEPIDLE 10 sizeof_int;
   sys_setsockopt fd IPPROTO_TCP TCP_KEEPINTVL 5 sizeof_int;
   sys_setsockopt fd IPPROTO_TCP TCP_KEEPCNT 3 sizeof_int;
   sys_bind fd (mk_sockaddr_in AF_INET (htons iPort) INADDR_ANY) sizeof_sockaddr_in;
   sys_listen fd iMaxClients].

(** The diagnostic that [createServerSocket] prints when its [k]-th step
    fails. *)
Definition failure_message (k : nat) : string :=
  match k with
  | 1%nat => "Socket failed"
  | 2%nat => "Setsockopt failed"
  | 3%nat => "Setsockopt SO_KEEPALIVE failed"
  | 4%nat => "Setsockopt TCP_KEEPIDLE failed"
  | 5%nat => "Setsockopt TCP_KEEPINTVL failed"
  | 6%nat => "Setsockopt TCP_KEEPCNT failed"
  | 7%nat => "Bind failed"
  | _ => "Listen failed"
  end.

(** The table [t'] differs from [t] at most in the options [touched] of
    the descriptor [fd]: every other descriptor has the same entry, [fd] is
    open in the one exactly when it is in the other, and its other options,
    its local address, its backlog and its peer are the same. *)
Definition socket_frame (fd : Z) (touched : list (Z * Z)) (t t' : gmap Z sock) : Prop :=
  (forall fd' : Z, fd' <> fd -> t' !! fd' = t !! fd')
  /\ (is_Some (t' !! fd) <-> is_Some (t !! fd))
  /\ (forall key : Z * Z, key ∉ touched ->
        (s ← t' !! fd; so_opts s !! key) = (s ← t !! fd; so_opts s !! key))
  /\ so_bound <$> t' !! fd = so_bound <$> t !! fd
  /\ so_backlog <$> t' !! fd = so_backlog <$> t !! fd
  /\ so_peer <$> t' !! fd = so_peer <$> t !! fd.

(** The number of slots that hold a descriptor. *)
Definition occupied (arr : list Z) : nat :=
  length (filter (fun fd => fd <> 0) arr).

(** A system whose [send] takes five bytes at a time. *)
Definition os_short_send : os :=
  by_call (fun c => match c with sys_send _ _ _ _ => 5 | _ => 0 end).

(** A system on which a peek reports the peer as gone (0) as long as the
    descriptor has not been closed, and fails (-1) once it has. *)
Definition os_stale : os :=
  fun h c =>
    match c with
    | sys_recv fd _ _ =>
        let closed :=
          existsb (fun c' => match c' with sys_close fd' => fd' =? fd | _ => false end)
            (calls_of h) in
        mk_answer (if closed then -1 else 0) []
    | _ => mk_answer 0 []
    end.

(** A connected pair over a byte stream.  A stream keeps no message
    boundaries: what one [send] put in may arrive in several pieces.  The
    bytes that the [send] calls of a log have put on the stream, and how many
    of them the [recv] calls have taken off it (a peek takes nothing): *)
Definition sent_bytes (h : list event) : list byte :=
  concat (map (fun e : event =>
                 match e.1 with
                 | sys_send _ buf _ _ => take (Z.to_nat (ret e.2)) buf
                 | _ => []
                 end) h).

Definition received_count (h : list event) : nat :=
  foldr (fun (e : event) (n : nat) =>
           match e.1 with
           | sys_recv _ _ flags =>
               if Z.land flags MSG_PEEK =? 0 then (Z.to_nat (ret e.2) + n)%nat else n
           | _ => n
           end) 0%nat h.

(** Every [send] is accepted whole, and a [recv] hands over the bytes that
    are pending, at most five per call.  With nothing pending the call
    fails (-1), where a blocking socket would wait. *)
Definition os_segmented : os :=
  fun h c =>
    match c with
    | sys_send _ _ len _ => mk_answer len []
    | sys_recv _ len _ =>
        let pending := drop (received_count h) (sent_bytes h) in
        let piece := take (Z.to_nat (Z.min len 5)) pending in
        match piece with
        | [] => mk_answer (-1) []
        | _ => mk_answer (Z.of_nat (length piece)) piece
        end
    | _ => mk_answer 0 []
    end.

(** ** Basic facts *)

Lemma to_int_id (z : Z) : in_int z -> to_int z = z.
Proof.
  unfold in_int, INT_MIN, INT_MAX, to_int. intros Hz.
  rewrite Z.mod_small by lia. lia.
Qed.

Lemma to_int_range (z : Z) : in_int (to_int z).
Proof.
  unfold in_int, INT_MIN, INT_MAX, to_int.
  pose proof (Z.mod_pos_bound (z + 2 ^ 31) (2 ^ 32) ltac:(lia)). lia.
Qed.

Lemma swap_bytes (p : Z) :
  0 <= p < 2 ^ 16 -> htons p = (p mod 256) * 256 + p / 256.
Proof.
  intros Hp. unfold htons. rewrite (Z.mod_small p) by lia.
  change 255 with (Z.ones 8). rewrite Z.land_ones by lia.
  rewrite Z.shiftl_mul_pow2, Z.shiftr_div_pow2 by lia.
  change (2 ^ 8) with 256.
  assert (Hhi : 0 <= p / 256 < 2 ^ 8)
    by (split; [apply Z.div_pos; lia | apply Z.div_lt_upper_bound; lia]).
  rewrite <- Z.add_nocarry_lor; [reflexivity|].
  apply Z.bits_inj'; intros n Hn. rewrite Z.land_spec, Z.bits_0.
  destruct (Z.lt_ge_cases n 8) as [Hlt | Hge].
  - replace (p mod 256 * 256) with (Z.shiftl (p mod 256) 8)
      by (rewrite Z.shiftl_mul_pow2 by lia; reflexivity).
    rewrite Z.shiftl_spec_low by lia. reflexivity.
  - destruct (Z.eq_dec (p / 256) 0) as [-> | Hnz].
    + rewrite Z.bits_0. apply andb_false_r.
    + rewrite (Z.bits_above_log2 (p / 256) n); [apply andb_false_r | lia |].
      assert (Z.log2 (p / 256) < 8) by (apply Z.log2_lt_pow2; lia). lia.
Qed.

(** For a port number in range, the field that [htons] produces reads back
    as that port. *)
Lemma ntohs_htons (p : Z) : 0 <= p < 2 ^ 16 -> ntohs (htons p) = p.
Proof.
  intros Hp. unfold ntohs.
  assert (Hlo : 0 <= p mod 256 < 256) by (apply Z.mod_pos_bound; lia).
  assert (Hhi : 0 <= p / 256 < 256)
    by (split; [apply Z.div_pos; lia | apply Z.div_lt_upper_bound; lia]).
  rewrite (swap_bytes p Hp). rewrite swap_bytes by lia.
  rewrite (Z.add_comm (p mod 256 * 256)).
  rewrite Z.mod_add, Z.div_add by lia.
  rewrite (Z.mod_small (p / 256)), (Z.div_small (p / 256)) by lia.
  pose proof (Z.div_mod p 256 ltac:(lia)). lia.
Qed.

(** ** Running the embedding *)

(** Unfold the monad and the wrappers of the calls. *)
Ltac run :=
  cbv beta iota zeta delta
    [socket bind listen connect setsockopt close inet_pton send select recv
     perror printf fprintf_stderr and_then syscall mreturn exit fault
     play answer_after fst snd].

(** Case analysis on the next test of the program. *)
Ltac to_prop :=
  repeat match goal with
  | H : negb _ = true |- _ => apply negb_true_iff in H
  | H : negb _ = false |- _ => apply negb_false_iff in H
  | H : (_ <? _) = true |- _ => apply Z.ltb_lt in H
  | H : (_ <? _) = false |- _ => apply Z.ltb_ge in H
  | H : (_ <=? _) = true |- _ => apply Z.leb_le in H
  | H : (_ <=? _) = false |- _ => apply Z.leb_gt in H
  | H : (_ =? _) = true |- _ => apply Z.eqb_eq in H
  | H : (_ =? _) = false |- _ => apply Z.eqb_neq in H
  end.

(** Give a name to every answer of the operating system in the goal. *)
Ltac name_answers o :=
  repeat match goal with
  | |- context [o ?hh ?c] =>
      let a := fresh "a" in set (a := o hh c) in *; clearbody a
  end.

Ltac next_test :=
  match goal with
  | |- context [if ?b then _ else _] =>
      let E := fresh "E" in destruct b eqn:E; to_prop; try lia; run
  end.

Lemma fd_table_app (h l : list event) :
  fd_table (h ++ l) = foldl apply_event (fd_table h) l.
Proof. unfold fd_table. apply foldl_app. Qed.

Lemma fd_table_snoc (h : list event) (e : event) :
  fd_table (h ++ [e]) = apply_event (fd_table h) e.
Proof. rewrite fd_table_app. reflexivity. Qed.

Lemma play_app (o : os) (cs1 cs2 : list call) (h : list event) :
  play o h (cs1 ++ cs2) = play o (play o h cs1) cs2.
Proof. revert h. induction cs1 as [|c cs1 IH]; intros h; cbn; [reflexivity | apply IH]. Qed.

Lemma play_snoc (o : os) (cs : list call) (c : call) (h : list event) :
  play o h (cs ++ [c]) = play o h cs ++ [(c, answer_after o h cs c)].
Proof. rewrite play_app. reflexivity. Qed.

Lemma calls_of_play (o : os) (cs : list call) (h : list event) :
  calls_of (play o h cs) = calls_of h ++ cs.
Proof.
  revert h. induction cs as [|c cs IH]; intros h; cbn.
  - symmetry. apply app_nil_r.
  - rewrite IH. unfold calls_of. rewrite fmap_app, <- app_assoc. reflexivity.
Qed.

Lemma play_extends (o : os) (cs : list call) (h : list event) :
  exists new : list event, play o h cs = h ++ new /\ calls_of new = cs.
Proof.
  revert h. induction cs as [|c cs IH]; intros h; cbn.
  - exists []. split; [symmetry; apply app_nil_r | reflexivity].
  - destruct (IH (h ++ [(c, o h c)])) as (new & -> & Hc).
    exists ((c, o h c) :: new). split.
    + rewrite <- app_assoc. reflexivity.
    + unfold calls_of in *. cbn. rewrite Hc. reflexivity.
Qed.

(** ** isPortAvailable *)

(** C6. For every port and every behaviour of the operating system,
    [isPortAvailable] first asks for a TCP/IPv4 socket.  When that fails it
    returns -1 and does nothing else.  When it succeeds, the function makes
    exactly three calls: the [socket], a [bind] of that descriptor to
    [INADDR_ANY] and the port (in network order), and a [close] of that
    descriptor, whatever [bind] returned, so that the descriptor is not open
    afterwards; and it returns 0 if and only if [bind] returned 0, and -1
    otherwise. *)
Theorem isPortAvailable_spec (o : os) (h : list event) (iPort : Z) :
  let c_sock := sys_socket AF_INET SOCK_STREAM 0 in
  let fd := ret (o h c_sock) in
  let c_bind :=
    sys_bind fd (mk_sockaddr_in AF_INET (htons iPort) INADDR_ANY) sizeof_sockaddr_in in
  let bound := ret (answer_after o h [c_sock] c_bind) in
  let log := play o h [c_sock; c_bind; sys_close fd] in
  (fd < 0 -> isPortAvailable iPort o h = (play o h [c_sock], Returned (-1)))
  /\ (0 <= fd ->
      exists v : Z,
        isPortAvailable iPort o h = (log, Returned v)
        /\ (v = 0 <-> bound = 0)
        /\ (bound <> 0 -> v = -1)
        /\ ~ is_open log fd).
Proof.
  unfold isPortAvailable. run. split; intros Hfd.
  - next_test. reflexivity.
  - next_test. eexists. split; [reflexivity|]. repeat split.
    + next_test.
    + intros ->. reflexivity.
    + intros Hb. next_test.
    + unfold is_open. rewrite fd_table_snoc. unfold apply_event. cbn [fst snd].
      rewrite lookup_delete_eq. intros [? ?]. discriminate.
Qed.

Lemma isPortAvailable_spec_witness :
  isPortAvailable 12347 os_up []
  = (play os_up []
       [sys_socket AF_INET SOCK_STREAM 0;
        sys_bind 3 (mk_sockaddr_in AF_INET (htons 12347) INADDR_ANY) sizeof_sockaddr_in;
        sys_close 3],
     Returned 0).
Proof.
  destruct (isPortAvailable_spec os_up [] 12347) as [_ Hrun].
  destruct Hrun as (v & Hrun & Hv & _); [simpl; lia|].
  rewrite Hrun. f_equal. f_equal. apply Hv. reflexivity.
Defined.

(** ** sendMessage, recvMsgBlocking, setSocketBufferSize *)

(** [sendMessage] is one [send] of the caller's buffer and length; it
    returns -1 when [send] fails and the count, as an [int], otherwise. *)
Lemma sendMessage_run (o : os) (h : list event) (iSock : Z)
    (cpvBuffer : list byte) (iLength : Z) :
  let c_send := sys_send iSock cpvBuffer iLength 0 in
  let sent := ret (o h c_send) in
  (sent < 0 ->
     sendMessage iSock cpvBuffer iLength o h
     = (play o h [c_send; sys_perror "send failed"], Returned (-1)))
  /\ (0 <= sent ->
     sendMessage iSock cpvBuffer iLength o h
     = (play o h [c_send], Returned (to_int sent))).
Proof.
  unfold sendMessage. run. split; intros; next_test; reflexivity.
Qed.

(** [recvMsgBlocking] is one [recv] into the caller's buffer; it returns -1
    when [recv] fails and the count, as an [int], otherwise (0 included). *)
Lemma recvMsgBlocking_run (o : os) (h : list event) (iSock : Z)
    (pvBuffer : list byte) (iLength : Z) :
  let c_recv := sys_recv iSock iLength 0 in
  let received := ret (o h c_recv) in
  let stored := store_bytes pvBuffer (out (o h c_recv)) in
  (received < 0 ->
     recvMsgBlocking iSock pvBuffer iLength o h
     = (play o h [c_recv; sys_perror "recv failed"], Returned (-1, stored)))
  /\ (0 <= received ->
     recvMsgBlocking iSock pvBuffer iLength o h
     = (play o h [c_recv], Returned (to_int received, stored))).
Proof.
  unfold recvMsgBlocking. run. split; intros; next_test; reflexivity.
Qed.

(** [setSocketBufferSize] sets [SO_RCVBUF], then [SO_SNDBUF], and ends the
    process when one of the two fails. *)
Lemma setSocketBufferSize_run (o : os) (h : list event) (iSock iRxSize iTxSize : Z) :
  let c_rx := sys_setsockopt iSock SOL_SOCKET SO_RCVBUF iRxSize sizeof_int in
  let c_tx := sys_setsockopt iSock SOL_SOCKET SO_SNDBUF iTxSize sizeof_int in
  (ret (o h c_rx) < 0 ->
     setSocketBufferSize iSock iRxSize iTxSize o h
     = (play o h [c_rx; sys_perror "Setsockopt SO_RCVBUF failed"], Exited EXIT_FAILURE))
  /\ (0 <= ret (o h c_rx) -> ret (answer_after o h [c_rx] c_tx) < 0 ->
     setSocketBufferSize iSock iRxSize iTxSize o h
     = (play o h [c_rx; c_tx; sys_perror "Setsockopt SO_SNDBUF failed"],
        Exited EXIT_FAILURE))
  /\ (0 <= ret (o h c_rx) -> 0 <= ret (answer_after o h [c_rx] c_tx) ->
     setSocketBufferSize iSock iRxSize iTxSize o h
     = (play o h [c_rx; c_tx], Returned tt)).
Proof.
  unfold setSocketBufferSize. run.
  repeat split; intros; repeat next_test; reflexivity.
Qed.

(** ** recvMsgTimeout *)

Lemma recv_count_fits (o : os) (h : list event) (fd len flags : Z) :
  recv_in_range o -> in_int (ret (o h (sys_recv fd len flags))).
Proof.
  intros Ho. specialize (Ho h fd len flags).
  unfold in_int, INT_MIN, INT_MAX, MAX_RW_COUNT in *. lia.
Qed.

(** C1. For every call of [recvMsgTimeout]: the function first calls
    [select].  If [select] fails (negative) the function prints a message and
    returns -1; if [select] returns 0 (nothing readable within the wait) it
    prints a message and returns [TCP_TIME_OUT]; in both cases no [recv] is
    made and the buffer is untouched.  If [select] reports readability the
    function makes exactly one [recv] and returns -1 if it fails,
    [TCP_DISCONNECTION] if it returns 0, and the byte count if it is
    positive. *)
Theorem recvMsgTimeout_spec (TCP_TIME_OUT TCP_DISCONNECTION : Z)
    (o : os) (h : list event) (iSock : Z) (pvBuffer : list byte)
    (iLength iTimeoutMsec : Z) :
  recv_in_range o ->
  let c_select := sys_select (to_int (iSock + 1)) [iSock] (timeout_of iTimeoutMsec) in
  let ready := ret (o h c_select) in
  let c_recv := sys_recv iSock iLength 0 in
  let received := ret (answer_after o h [c_select] c_recv) in
  let stored := store_bytes pvBuffer (out (answer_after o h [c_select] c_recv)) in
  let c_timeout :=
    sys_fprintf_stderr "Timeout: no data received within %d seconds.\n" [iTimeoutMsec] in
  let result :=
    recvMsgTimeout TCP_TIME_OUT TCP_DISCONNECTION iSock pvBuffer iLength iTimeoutMsec o h in
  (ready < 0 ->
     result = (play o h [c_select; sys_perror "select error"], Returned (-1, pvBuffer))
     /\ count_in is_recv [c_select; sys_perror "select error"] = 0%nat)
  /\ (ready = 0 ->
     result = (play o h [c_select; c_timeout], Returned (TCP_TIME_OUT, pvBuffer))
     /\ count_in is_recv [c_select; c_timeout] = 0%nat)
  /\ (0 < ready ->
     (received < 0 ->
        result = (play o h [c_select; c_recv; sys_perror "recv failed"],
                  Returned (-1, stored))
        /\ count_in is_recv [c_select; c_recv; sys_perror "recv failed"] = 1%nat)
     /\ (received = 0 ->
        result = (play o h [c_select; c_recv], Returned (TCP_DISCONNECTION, stored))
        /\ count_in is_recv [c_select; c_recv] = 1%nat)
     /\ (0 < received ->
        result = (play o h [c_select; c_recv], Returned (received, stored))
        /\ count_in is_recv [c_select; c_recv] = 1%nat)).
Proof.
  intros Ho. pose proof (recv_count_fits o (h ++ [(sys_select (to_int (iSock + 1))
    [iSock] (timeout_of iTimeoutMsec), o h (sys_select (to_int (iSock + 1)) [iSock]
    (timeout_of iTimeoutMsec)))]) iSock iLength 0 Ho) as Hfit.
  unfold recvMsgTimeout. run.
  repeat split; try reflexivity; intros; repeat next_test; try reflexivity.
  rewrite (to_int_id _ Hfit). reflexivity.
Qed.

Lemma recvMsgTimeout_spec_witness :
  recv_in_range os_hello
  /\ recvMsgTimeout 0 (-2) 3 (repeat x00 128) 128 300 os_hello []
     = (play os_hello [] [sys_select 4 [3] (mk_timeval 0 300000); sys_recv 3 128 0],
        Returned (14, hello ++ repeat x00 114)).
Proof.
  assert (Hos : recv_in_range os_hello).
  { intros h fd len flags. unfold MAX_RW_COUNT. simpl. lia. }
  split; [exact Hos|].
  destruct (recvMsgTimeout_spec 0 (-2) os_hello [] 3 (repeat x00 128) 128 300 Hos)
    as (_ & _ & Hready).
  destruct Hready as (_ & _ & Hpos); [simpl; lia|].
  destruct Hpos as [Hrun _]; [simpl; lia|].
  exact Hrun.
Defined.

(** C2 (defect of the code). The claim is that the microsecond field is
    the timeout times 1000, hence above 999999 for every timeout of at least
    1000 ms.  The code computes the product as an [int] product.  For the
    timeout 4294968 ms, which is an [int], the product 4294968000 is
    [2 ^ 32 + 704] and leaves the range of [int]; the field becomes 704.  On
    every system and for every socket and buffer, [recvMsgTimeout] called
    with 4294968 ms starts with a [select] whose timeout is
    [{tv_sec = 0, tv_usec = 704}]: a wait of 704 microseconds, neither the
    product nor above 999999.  On a system that reports nothing readable the
    call gives up with the time-out diagnostic after that wait. *)
Theorem timeout_conversion_overflow (TCP_TIME_OUT TCP_DISCONNECTION : Z)
    (o : os) (h : list event) (iSock : Z) (pvBuffer : list byte) (iLength : Z) :
  in_int 4294968
  /\ 1000 <= 4294968
  /\ 4294968 * 1000 = 2 ^ 32 + 704
  /\ INT_MAX < 4294968 * 1000
  /\ timeout_of 4294968 = mk_timeval 0 704
  /\ tv_usec (timeout_of 4294968) <> 4294968 * 1000
  /\ ~ 999999 < tv_usec (timeout_of 4294968)
  /\ (exists rest : list call,
        (recvMsgTimeout TCP_TIME_OUT TCP_DISCONNECTION iSock pvBuffer iLength
           4294968 o h).1
        = play o h (sys_select (to_int (iSock + 1)) [iSock] (mk_timeval 0 704) :: rest))
  /\ recvMsgTimeout 0 (-2) 3 [] 128 4294968 (by_call (fun _ => 0)) []
     = (play (by_call (fun _ => 0)) []
          [sys_select 4 [3] (mk_timeval 0 704);
           sys_fprintf_stderr "Timeout: no data received within %d seconds.\n"
             [4294968]],
        Returned (0, [])).
Proof.
  assert (Htv : timeout_of 4294968 = mk_timeval 0 704) by reflexivity.
  split; [unfold in_int, INT_MIN, INT_MAX; lia|].
  split; [lia|]. split; [reflexivity|].
  split; [unfold INT_MAX; lia|]. split; [exact Htv|].
  rewrite Htv. cbn [tv_usec].
  split; [lia|]. split; [lia|]. split; [|reflexivity].
  unfold recvMsgTimeout. rewrite Htv.
  set (c := sys_select (to_int (iSock + 1)) [iSock] (mk_timeval 0 704)).
  run. next_test; [exists [sys_perror "select error"]; reflexivity|].
  next_test.
  { exists [sys_fprintf_stderr "Timeout: no data received within %d seconds.\n"
              [4294968]]. reflexivity. }
  next_test; [exists [sys_recv iSock iLength 0; sys_perror "recv failed"]; reflexivity|].
  next_test; exists [sys_recv iSock iLength 0]; reflexivity.
Qed.

(** C7 (defect of the code). The claim is that a payload of N bytes sent
    with [sendMessage] comes back from [recvMsgBlocking] on the peer as
    exactly N bytes, and the header documents [recvMsgBlocking] as blocking
    until the reception is complete.  The function is one [recv] with flags
    0: it returns as soon as a piece of the stream has arrived.  On a stream
    that hands over five bytes at a time, [sendMessage] of the fourteen bytes
    of the test suite's message returns 14, and [recvMsgBlocking] on the peer
    with a buffer of fourteen bytes makes a single [recv] and returns 5 with
    the first five bytes only; the rest of the payload is on the stream and
    comes with the second and third call (5 and 4 bytes). *)
Theorem round_trip_short_receive :
  let buf := repeat x00 14 in
  let sent := sendMessage 3 hello 14 os_segmented [] in
  let first := recvMsgBlocking 4 buf 14 os_segmented sent.1 in
  let second := recvMsgBlocking 4 buf 14 os_segmented first.1 in
  let third := recvMsgBlocking 4 buf 14 os_segmented second.1 in
  Z.of_nat (length hello) = 14
  /\ sent.2 = Returned 14
  /\ sent_bytes sent.1 = hello
  /\ first.2 = Returned (5, list_byte_of_string "Hello" ++ repeat x00 9)
  /\ calls_of first.1 = [sys_send 3 hello 14 0; sys_recv 4 14 0]
  /\ first.2 <> Returned (14, hello)
  /\ second.2 = Returned (5, list_byte_of_string ", ser" ++ repeat x00 9)
  /\ third.2 = Returned (4, list_byte_of_string "ver!" ++ repeat x00 10).
Proof.
  cbv zeta. vm_compute.
  split; [reflexivity|]. split; [reflexivity|]. split; [reflexivity|].
  split; [reflexivity|]. split; [reflexivity|].
  split; [discriminate|]. split; reflexivity.
Qed.

(** ** The descriptor table *)

Lemma is_open_socket (h : list event) (domain type protocol : Z) (a : answer) :
  0 <= ret a -> is_open (h ++ [(sys_socket domain type protocol, a)]) (ret a).
Proof.
  intros Ha. unfold is_open. rewrite fd_table_snoc. unfold apply_event. cbn [fst snd].
  destruct (Z.leb_spec 0 (ret a)); [|lia].
  rewrite lookup_insert_eq. eauto.
Qed.

Lemma is_open_step (h : list event) (e : event) (fd : Z) :
  is_open h fd -> e.1 <> sys_close fd -> is_open (h ++ [e]) fd.
Proof.
  unfold is_open. intros Hopen Hc. rewrite fd_table_snoc.
  destruct e as [c a]. unfold apply_event. cbn [fst snd] in *.
  destruct c; try exact Hopen; try (destruct (0 <=? ret a); [|exact Hopen]).
  - destruct (decide (ret a = fd)) as [->|Hne].
    + rewrite lookup_insert_eq. eauto.
    + rewrite lookup_insert_ne by exact Hne. exact Hopen.
  - rewrite lookup_alter. destruct (decide (fd0 = fd)); [subst|exact Hopen].
    destruct Hopen as [s ->]. cbn. eauto.
  - rewrite lookup_alter. destruct (decide (fd0 = fd)); [subst|exact Hopen].
    destruct Hopen as [s ->]. cbn. eauto.
  - rewrite lookup_alter. destruct (decide (fd0 = fd)); [subst|exact Hopen].
    destruct Hopen as [s ->]. cbn. eauto.
  - rewrite lookup_alter. destruct (decide (fd0 = fd)); [subst|exact Hopen].
    destruct Hopen as [s ->]. cbn. eauto.
  - rewrite lookup_delete_ne; [exact Hopen|]. intros ->. apply Hc. reflexivity.
Qed.

Lemma not_open_close (h : list event) (fd : Z) (a : answer) :
  ~ is_open (h ++ [(sys_close fd, a)]) fd.
Proof.
  unfold is_open. rewrite fd_table_snoc. unfold apply_event. cbn [fst snd].
  rewrite lookup_delete_eq. intros [? ?]. discriminate.
Qed.

Lemma lookup_apply_socket (t : gmap Z sock) (domain type protocol fd : Z) (a : answer) :
  ret a = fd -> 0 <= fd ->
  apply_event t (sys_socket domain type protocol, a) !! fd = Some new_sock.
Proof.
  intros <- Hfd. unfold apply_event. cbn [fst snd].
  destruct (Z.leb_spec 0 (ret a)); [|lia]. apply lookup_insert_eq.
Qed.

Lemma lookup_apply_setsockopt (t : gmap Z sock) (fd level optname optval optlen : Z)
    (a : answer) :
  0 <= ret a ->
  apply_event t (sys_setsockopt fd level optname optval optlen, a) !! fd
  = (fun s => mk_sock (<[(level, optname) := optval]> (so_opts s))
                (so_bound s) (so_backlog s) (so_peer s)) <$> t !! fd.
Proof.
  intros Ha. unfold apply_event. cbn [fst snd].
  destruct (Z.leb_spec 0 (ret a)); [|lia]. apply lookup_alter_eq.
Qed.

Lemma lookup_apply_bind (t : gmap Z sock) (fd : Z) (addr : sockaddr_in)
    (addrlen : Z) (a : answer) :
  0 <= ret a ->
  apply_event t (sys_bind fd addr addrlen, a) !! fd
  = (fun s => mk_sock (so_opts s) (Some addr) (so_backlog s) (so_peer s)) <$> t !! fd.
Proof.
  intros Ha. unfold apply_event. cbn [fst snd].
  destruct (Z.leb_spec 0 (ret a)); [|lia]. apply lookup_alter_eq.
Qed.

Lemma lookup_apply_listen (t : gmap Z sock) (fd backlog : Z) (a : answer) :
  0 <= ret a ->
  apply_event t (sys_listen fd backlog, a) !! fd
  = (fun s => mk_sock (so_opts s) (so_bound s) (Some backlog) (so_peer s)) <$> t !! fd.
Proof.
  intros Ha. unfold apply_event. cbn [fst snd].
  destruct (Z.leb_spec 0 (ret a)); [|lia]. apply lookup_alter_eq.
Qed.

(** ** createClientSocket *)

(** C8. For every call of [createClientSocket]: if [socket] fails the
    function returns -1; otherwise it parses the address with [inet_pton]
    (the only use made of the string: no resolver is called) and returns -1
    if that does not succeed; otherwise it makes one [connect] to that
    address and the port and returns -1 if it fails; and when all three steps
    succeed it returns the descriptor that [socket] gave. *)
Theorem createClientSocket_spec (o : os) (h : list event) (kpchIp : string) (iPort : Z) :
  let c_sock := sys_socket AF_INET SOCK_STREAM 0 in
  let fd := ret (o h c_sock) in
  let c_pton := sys_inet_pton AF_INET kpchIp in
  let parsed := answer_after o h [c_sock] c_pton in
  let c_conn :=
    sys_connect fd (mk_sockaddr_in AF_INET (htons iPort) (out parsed))
      sizeof_sockaddr_in in
  let connected := ret (answer_after o h [c_sock; c_pton] c_conn) in
  let result := createClientSocket kpchIp iPort o h in
  (fd < 0 ->
     result = (play o h [c_sock; sys_perror "Socket creation error"], Returned (-1)))
  /\ (0 <= fd -> ret parsed <= 0 ->
     result = (play o h [c_sock; c_pton;
                         sys_perror "Invalid address/ Address not supported"],
               Returned (-1)))
  /\ (0 <= fd -> 0 < ret parsed -> connected < 0 ->
     result = (play o h [c_sock; c_pton; c_conn; sys_perror "Connection failed"],
               Returned (-1)))
  /\ (0 <= fd -> 0 < ret parsed -> 0 <= connected ->
     result = (play o h [c_sock; c_pton; c_conn], Returned fd)).
Proof.
  unfold createClientSocket. run.
  repeat split; intros; repeat next_test; reflexivity.
Qed.

Lemma createClientSocket_spec_witness :
  createClientSocket "127.0.0.1" 12347 os_up []
  = (play os_up []
       [sys_socket AF_INET SOCK_STREAM 0;
        sys_inet_pton AF_INET "127.0.0.1";
        sys_connect 3 (mk_sockaddr_in AF_INET (htons 12347) [x7f; x00; x00; x01])
          sizeof_sockaddr_in],
     Returned 3).
Proof.
  destruct (createClientSocket_spec os_up [] "127.0.0.1" 12347) as (_ & _ & _ & Hrun).
  apply Hrun; simpl; lia.
Defined.

Lemma createClientSocket_run_parse_fails (o : os) (h : list event)
    (kpchIp : string) (iPort : Z) :
  let c_sock := sys_socket AF_INET SOCK_STREAM 0 in
  let c_pton := sys_inet_pton AF_INET kpchIp in
  0 <= ret (o h c_sock) ->
  ret (answer_after o h [c_sock] c_pton) <= 0 ->
  createClientSocket kpchIp iPort o h
  = (play o h [c_sock; c_pton; sys_perror "Invalid address/ Address not supported"],
     Returned (-1)).
Proof.
  unfold createClientSocket. run. intros. repeat next_test. reflexivity.
Qed.

Lemma createClientSocket_run_connect_fails (o : os) (h : list event)
    (kpchIp : string) (iPort : Z) :
  let c_sock := sys_socket AF_INET SOCK_STREAM 0 in
  let c_pton := sys_inet_pton AF_INET kpchIp in
  let c_conn :=
    sys_connect (ret (o h c_sock))
      (mk_sockaddr_in AF_INET (htons iPort) (out (answer_after o h [c_sock] c_pton)))
      sizeof_sockaddr_in in
  0 <= ret (o h c_sock) ->
  0 < ret (answer_after o h [c_sock] c_pton) ->
  ret (answer_after o h [c_sock; c_pton] c_conn) < 0 ->
  createClientSocket kpchIp iPort o h
  = (play o h [c_sock; c_pton; c_conn; sys_perror "Connection failed"], Returned (-1)).
Proof.
  unfold createClientSocket. run. intros. repeat next_test. reflexivity.
Qed.

Lemma isPortAvailable_run (o : os) (h : list event) (iPort : Z) :
  let c_sock := sys_socket AF_INET SOCK_STREAM 0 in
  let fd := ret (o h c_sock) in
  let c_bind :=
    sys_bind fd (mk_sockaddr_in AF_INET (htons iPort) INADDR_ANY) sizeof_sockaddr_in in
  0 <= fd ->
  (isPortAvailable iPort o h).1 = play o h [c_sock; c_bind; sys_close fd].
Proof.
  unfold isPortAvailable. run. intros. next_test. reflexivity.
Qed.

(** C10. When [createClientSocket] has obtained a descriptor and then
    fails, because the address does not parse or because [connect] fails, it
    returns -1 and makes no [close] at all: the descriptor is still open when
    the function returns, and the caller is given no handle to it.
    [isPortAvailable], once it has a descriptor, always ends with a [close] of
    it, and the descriptor is not open afterwards. *)
Theorem createClientSocket_leaks_descriptor (o : os) (h : list event)
    (kpchIp : string) (iPort : Z) :
  let c_sock := sys_socket AF_INET SOCK_STREAM 0 in
  let fd := ret (o h c_sock) in
  let c_pton := sys_inet_pton AF_INET kpchIp in
  let parsed := answer_after o h [c_sock] c_pton in
  let c_conn :=
    sys_connect fd (mk_sockaddr_in AF_INET (htons iPort) (out parsed))
      sizeof_sockaddr_in in
  let connected := ret (answer_after o h [c_sock; c_pton] c_conn) in
  0 <= fd ->
  ret parsed <= 0 \/ (0 < ret parsed /\ connected < 0) ->
  (exists cs : list call,
      createClientSocket kpchIp iPort o h = (play o h cs, Returned (-1))
      /\ count_in is_close cs = 0%nat
      /\ is_open (play o h cs) fd)
  /\ (exists cs : list call,
      (isPortAvailable iPort o h).1 = play o h (cs ++ [sys_close fd])
      /\ ~ is_open (play o h (cs ++ [sys_close fd])) fd).
Proof.
  intros c_sock fd c_pton parsed c_conn connected Hfd Hfail. split.
  - destruct Hfail as [Hparse | [Hparse Hconn]].
    + exists [c_sock; c_pton; sys_perror "Invalid address/ Address not supported"].
      split; [|split].
      * apply createClientSocket_run_parse_fails; assumption.
      * reflexivity.
      * cbn [play]. do 2 (apply is_open_step; [|discriminate]).
        apply is_open_socket. exact Hfd.
    + exists [c_sock; c_pton; c_conn; sys_perror "Connection failed"].
      split; [|split].
      * apply createClientSocket_run_connect_fails; assumption.
      * reflexivity.
      * cbn [play]. do 3 (apply is_open_step; [|discriminate]).
        apply is_open_socket. exact Hfd.
  - exists [c_sock;
            sys_bind fd (mk_sockaddr_in AF_INET (htons iPort) INADDR_ANY)
              sizeof_sockaddr_in].
    split.
    + apply isPortAvailable_run. exact Hfd.
    + rewrite play_snoc. apply not_open_close.
Qed.

Lemma createClientSocket_leaks_descriptor_witness :
  0 <= ret (os_refused [] (sys_socket AF_INET SOCK_STREAM 0))
  /\ (createClientSocket "127.0.0.1" 12347 os_refused []).2 = Returned (-1)
  /\ is_open (createClientSocket "127.0.0.1" 12347 os_refused []).1 3.
Proof.
  assert (Hfd : 0 <= ret (os_refused [] (sys_socket AF_INET SOCK_STREAM 0)))
    by (simpl; lia).
  split; [exact Hfd|].
  destruct (createClientSocket_leaks_descriptor os_refused [] "127.0.0.1" 12347 Hfd)
    as [(cs & Hrun & _ & Hopen) _].
  { right. split; simpl; lia. }
  rewrite Hrun. split; [reflexivity | exact Hopen].
Defined.

(** ** createServerSocket *)

Lemma createServerSocket_exits_or_returns (o : os) (h : list event)
    (iPort iMaxClients : Z) :
  (createServerSocket iPort iMaxClients o h).2 = Exited EXIT_FAILURE
  \/ exists v : Z, (createServerSocket iPort iMaxClients o h).2 = Returned v.
Proof.
  unfold createServerSocket. run.
  repeat (next_test; [left; reflexivity|]).
  right. eexists. reflexivity.
Qed.

(** The run of [createServerSocket] when it returns: the eight calls of the
    set-up, in the order of the source, each of them successful. *)
Lemma createServerSocket_returned (o : os) (h : list event)
    (iPort iMaxClients v : Z) :
  rejects_bad_fd o ->
  (createServerSocket iPort iMaxClients o h).2 = Returned v ->
  v = ret (o h (sys_socket AF_INET SOCK_STREAM 0))
  /\ 0 < v
  /\ (createServerSocket iPort iMaxClients o h).1
     = play o h
         [sys_socket AF_INET SOCK_STREAM 0;
          sys_setsockopt v SOL_SOCKET (Z.lor SO_REUSEADDR SO_REUSEPORT) 1 sizeof_int;
          sys_setsockopt v SOL_SOCKET SO_KEEPALIVE 1 sizeof_int;
          sys_setsockopt v IPPROTO_TCP TCP_KEEPIDLE 10 sizeof_int;
          sys_setsockopt v IPPROTO_TCP TCP_KEEPINTVL 5 sizeof_int;
          sys_setsockopt v IPPROTO_TCP TCP_KEEPCNT 3 sizeof_int;
          sys_bind v (mk_sockaddr_in AF_INET (htons iPort) INADDR_ANY)
            sizeof_sockaddr_in;
          sys_listen v iMaxClients]
  /\ exists a1 a2 a3 a4 a5 a6 a7 a8 : answer,
      (createServerSocket iPort iMaxClients o h).1
      = h ++
        [(sys_socket AF_INET SOCK_STREAM 0, a1);
         (sys_setsockopt v SOL_SOCKET (Z.lor SO_REUSEADDR SO_REUSEPORT) 1 sizeof_int, a2);
         (sys_setsockopt v SOL_SOCKET SO_KEEPALIVE 1 sizeof_int, a3);
         (sys_setsockopt v IPPROTO_TCP TCP_KEEPIDLE 10 sizeof_int, a4);
         (sys_setsockopt v IPPROTO_TCP TCP_KEEPINTVL 5 sizeof_int, a5);
         (sys_setsockopt v IPPROTO_TCP TCP_KEEPCNT 3 sizeof_int, a6);
         (sys_bind v (mk_sockaddr_in AF_INET (htons iPort) INADDR_ANY)
            sizeof_sockaddr_in, a7);
         (sys_listen v iMaxClients, a8)]
      /\ ret a1 = v /\ ret a2 = 0 /\ 0 <= ret a3 /\ 0 <= ret a4 /\ 0 <= ret a5
      /\ 0 <= ret a6 /\ 0 <= ret a7 /\ 0 <= ret a8.
Proof.
  intros Hbad. unfold createServerSocket. run.
  repeat (next_test; [discriminate|]).
  intros [= <-].
  match goal with
  | H : ret (o _ (sys_setsockopt ?fd ?l ?n ?x ?len)) = 0 |- _ =>
      assert (Hpos : 0 <= fd)
        by (destruct (Z.lt_ge_cases fd 0) as [Hneg|Hge]; [|exact Hge];
            rewrite (Hbad _ fd l n x len Hneg) in H; discriminate)
  end.
  split; [reflexivity|]. split; [lia|]. split; [reflexivity|].
  clear Hbad Hpos. name_answers o.
  do 8 eexists. split.
  { rewrite <- !app_assoc. cbn [app]. reflexivity. }
  repeat split; first [reflexivity | assumption].
Qed.

(** C3. In [createServerSocket] a failure never comes back to the caller
    as a value: on an operating system that refuses a call on a negative
    descriptor, a failed [socket] ends the process with [EXIT_FAILURE]; more
    generally, whenever one of the socket calls the function made returned a
    negative value, the process has exited with [EXIT_FAILURE]; and a value
    that the function does return is a positive descriptor. *)
Theorem createServerSocket_failure_exits (o : os) (h : list event)
    (iPort iMaxClients : Z) :
  rejects_bad_fd o ->
  let result := createServerSocket iPort iMaxClients o h in
  (ret (o h (sys_socket AF_INET SOCK_STREAM 0)) < 0 ->
     result.2 = Exited EXIT_FAILURE)
  /\ (forall e : event,
        e ∈ drop (length h) result.1 ->
        is_socket_call e.1 = true -> ret e.2 < 0 ->
        result.2 = Exited EXIT_FAILURE)
  /\ (forall v : Z, result.2 = Returned v -> 0 < v)
  /\ result.2 <> Fault.
Proof.
  intros Hbad result.
  assert (Hret : forall v, result.2 = Returned v ->
            0 < v /\ v = ret (o h (sys_socket AF_INET SOCK_STREAM 0))
            /\ forall e : event, e ∈ drop (length h) result.1 -> 0 <= ret e.2).
  { intros v Hv.
    destruct (createServerSocket_returned o h iPort iMaxClients v Hbad Hv)
      as (Hfd & Hpos & _ & a1 & a2 & a3 & a4 & a5 & a6 & a7 & a8 & Hlog & Hans).
    split; [exact Hpos|]. split; [exact Hfd|].
    intros e He. unfold result in He. rewrite Hlog, drop_app_length in He.
    repeat (apply elem_of_cons in He as [->|He]); cbn [snd]; try lia.
    apply elem_of_nil in He. destruct He. }
  destruct (createServerSocket_exits_or_returns o h iPort iMaxClients)
    as [Hexit | [v Hv]]; fold result in Hexit || fold result in Hv.
  - rewrite Hexit. repeat split; intros; try reflexivity; discriminate.
  - destruct (Hret v Hv) as (Hpos & Hfd & Hall). repeat split.
    + intros Hneg. lia.
    + intros e He _ Hfail. specialize (Hall e He). lia.
    + intros v' Hv'. rewrite Hv in Hv'. injection Hv' as <-. exact Hpos.
    + rewrite Hv. discriminate.
Qed.

Lemma createServerSocket_failure_exits_witness :
  rejects_bad_fd os_no_socket
  /\ ret (os_no_socket [] (sys_socket AF_INET SOCK_STREAM 0)) < 0
  /\ (createServerSocket 12347 5 os_no_socket []).2 = Exited EXIT_FAILURE.
Proof.
  assert (Hos : rejects_bad_fd os_no_socket).
  { intros h fd level optname optval optlen Hfd. simpl.
    rewrite (proj2 (Z.ltb_lt fd 0) Hfd). reflexivity. }
  split; [exact Hos|]. split; [simpl; lia|].
  destruct (createServerSocket_failure_exits os_no_socket [] 12347 5 Hos) as [Hsock _].
  apply Hsock. simpl. lia.
Defined.

(** The exit on a failed [socket] comes from the test of the first
    [setsockopt], not from the test of [socket] itself, which compares the
    descriptor with 0: on a system that let [setsockopt], [bind] and [listen]
    succeed on the descriptor -1, the function would return -1. *)
Remark createServerSocket_socket_test :
  (createServerSocket 12347 5 os_lenient []).2 = Returned (-1)
  /\ ~ rejects_bad_fd os_lenient.
Proof.
  split; [reflexivity|].
  intros Hos. specialize (Hos [] (-1) 0 0 0 0 ltac:(lia)). discriminate Hos.
Qed.

(** C4. When [createServerSocket] returns a value, that value is the
    descriptor [socket] gave, and the function has made exactly these calls
    on it, in this order, each of them successful: the address-reuse option,
    [SO_KEEPALIVE = 1], [TCP_KEEPIDLE = 10], [TCP_KEEPINTVL = 5],
    [TCP_KEEPCNT = 3], [bind] to [INADDR_ANY] and the port, [listen] with
    backlog [iMaxClients].  Read back from the descriptor table, the four
    keep-alive options have these values and the socket is bound and
    listening. *)
Theorem createServerSocket_keepalive (o : os) (h : list event)
    (iPort iMaxClients v : Z) :
  rejects_bad_fd o ->
  (createServerSocket iPort iMaxClients o h).2 = Returned v ->
  let log := (createServerSocket iPort iMaxClients o h).1 in
  let addr := mk_sockaddr_in AF_INET (htons iPort) INADDR_ANY in
  v = ret (o h (sys_socket AF_INET SOCK_STREAM 0))
  /\ log = play o h
       [sys_socket AF_INET SOCK_STREAM 0;
        sys_setsockopt v SOL_SOCKET (Z.lor SO_REUSEADDR SO_REUSEPORT) 1 sizeof_int;
        sys_setsockopt v SOL_SOCKET SO_KEEPALIVE 1 sizeof_int;
        sys_setsockopt v IPPROTO_TCP TCP_KEEPIDLE 10 sizeof_int;
        sys_setsockopt v IPPROTO_TCP TCP_KEEPINTVL 5 sizeof_int;
        sys_setsockopt v IPPROTO_TCP TCP_KEEPCNT 3 sizeof_int;
        sys_bind v addr sizeof_sockaddr_in;
        sys_listen v iMaxClients]
  /\ (forall e : event, e ∈ drop (length h) log -> 0 <= ret e.2)
  /\ getsockopt log v SOL_SOCKET SO_KEEPALIVE = Some 1
  /\ getsockopt log v IPPROTO_TCP TCP_KEEPIDLE = Some 10
  /\ getsockopt log v IPPROTO_TCP TCP_KEEPINTVL = Some 5
  /\ getsockopt log v IPPROTO_TCP TCP_KEEPCNT = Some 3
  /\ exists s : sock,
      fd_table log !! v = Some s
      /\ so_bound s = Some addr /\ so_backlog s = Some iMaxClients.
Proof.
  intros Hbad Hv log addr.
  destruct (createServerSocket_returned o h iPort iMaxClients v Hbad Hv)
    as (Hfd & Hpos & Hplay & a1 & a2 & a3 & a4 & a5 & a6 & a7 & a8 & Hlog & Hans).
  destruct Hans as (H1 & H2 & H3 & H4 & H5 & H6 & H7 & H8).
  fold log in Hplay, Hlog. fold addr in Hplay, Hlog.
  split; [exact Hfd|]. split; [exact Hplay|]. split.
  { intros e He. rewrite Hlog, drop_app_length in He.
    repeat (apply elem_of_cons in He as [->|He]); cbn [snd]; try lia.
    apply elem_of_nil in He. destruct He. }
  assert (Htab : fd_table log !! v
    = Some (mk_sock
              (<[(IPPROTO_TCP, TCP_KEEPCNT) := 3]>
                (<[(IPPROTO_TCP, TCP_KEEPINTVL) := 5]>
                  (<[(IPPROTO_TCP, TCP_KEEPIDLE) := 10]>
                    (<[(SOL_SOCKET, SO_KEEPALIVE) := 1]>
                      (<[(SOL_SOCKET, Z.lor SO_REUSEADDR SO_REUSEPORT) := 1]> ∅)))))
              (Some addr) (Some iMaxClients) None)).
  { rewrite Hlog, fd_table_app. cbn [foldl].
    rewrite lookup_apply_listen by exact H8.
    rewrite lookup_apply_bind by exact H7.
    rewrite lookup_apply_setsockopt by exact H6.
    rewrite lookup_apply_setsockopt by exact H5.
    rewrite lookup_apply_setsockopt by exact H4.
    rewrite lookup_apply_setsockopt by exact H3.
    rewrite lookup_apply_setsockopt by lia.
    rewrite lookup_apply_socket by (exact H1 || lia).
    reflexivity. }
  unfold getsockopt. rewrite Htab. cbn [mbind option_bind so_opts].
  repeat split; try reflexivity.
  eexists. split; [reflexivity|]. split; reflexivity.
Qed.

Lemma createServerSocket_keepalive_witness :
  rejects_bad_fd os_up
  /\ (createServerSocket 12347 5 os_up []).2 = Returned 3
  /\ getsockopt (createServerSocket 12347 5 os_up []).1 3 SOL_SOCKET SO_KEEPALIVE = Some 1
  /\ getsockopt (createServerSocket 12347 5 os_up []).1 3 IPPROTO_TCP TCP_KEEPIDLE = Some 10
  /\ getsockopt (createServerSocket 12347 5 os_up []).1 3 IPPROTO_TCP TCP_KEEPINTVL = Some 5
  /\ getsockopt (createServerSocket 12347 5 os_up []).1 3 IPPROTO_TCP TCP_KEEPCNT = Some 3.
Proof.
  assert (Hos : rejects_bad_fd os_up).
  { intros h fd level optname optval optlen Hfd. simpl.
    rewrite (proj2 (Z.ltb_lt fd 0) Hfd). reflexivity. }
  assert (Hv : (createServerSocket 12347 5 os_up []).2 = Returned 3) by reflexivity.
  split; [exact Hos|]. split; [exact Hv|].
  destruct (createServerSocket_keepalive os_up [] 12347 5 3 Hos Hv)
    as (_ & _ & _ & Hka & Hidle & Hintvl & Hcnt & _).
  split; [exact Hka|]. split; [exact Hidle|]. split; [exact Hintvl | exact Hcnt].
Defined.

(** ** checkClientConnections *)

Lemma play_events (o : os) (h : list event) (cs : list call) :
  play o h cs = h ++ events o h cs.
Proof.
  unfold events. destruct (play_extends o cs h) as (new & -> & _).
  rewrite drop_app_length. reflexivity.
Qed.

Lemma calls_of_events (o : os) (h : list event) (cs : list call) :
  calls_of (events o h cs) = cs.
Proof.
  unfold events. destruct (play_extends o cs h) as (new & -> & Hc).
  rewrite drop_app_length. exact Hc.
Qed.

(** One slot of the scan. *)
Lemma check_slot_run (o : os) (h : list event) (arr : list Z) (i : nat) (fd : Z) :
  arr !! i = Some fd ->
  (fd = 0 -> check_slot arr i o h = (h, Returned arr))
  /\ (fd <> 0 -> to_int (ret (o h (peek fd))) = 0 ->
      check_slot arr i o h = (play o h (disconnect_calls fd), Returned (<[i := 0]> arr)))
  /\ (fd <> 0 -> to_int (ret (o h (peek fd))) <> 0 ->
      check_slot arr i o h = (play o h [peek fd], Returned arr)).
Proof.
  intros Hi. pose proof (lookup_lt_Some _ _ _ Hi) as Hlt.
  unfold check_slot, handleClientDisconnection, load, store, disconnect_calls, peek.
  rewrite !Hi. rewrite bool_decide_eq_true_2 by exact Hlt. run.
  repeat split; intros; repeat next_test; try reflexivity; congruence.
Qed.

Lemma check_slot_ok (o : os) (h : list event) (arr : list Z) (i : nat) (fd : Z) :
  arr !! i = Some fd ->
  exists (seg : list event) (arr1 : list Z),
    check_slot arr i o h = (h ++ seg, Returned arr1)
    /\ length arr1 = length arr
    /\ (forall j : nat, j <> i -> arr1 !! j = arr !! j)
    /\ slot_ok o h fd seg (arr1 !! i).
Proof.
  intros Hi. pose proof (lookup_lt_Some _ _ _ Hi) as Hlt.
  destruct (check_slot_run o h arr i fd Hi) as (Hzero & Hgone & Hlive).
  destruct (decide (fd = 0)) as [Hfd | Hfd].
  - exists [], arr. rewrite app_nil_r. repeat split; try tauto; try congruence.
  - destruct (decide (to_int (ret (o h (peek fd))) = 0)) as [Hr | Hr].
    + exists (events o h (disconnect_calls fd)), (<[i := 0]> arr).
      rewrite <- play_events. split; [auto|]. split; [apply length_insert|].
      split; [intros j Hj; apply list_lookup_insert_ne; congruence|].
      rewrite list_lookup_insert_eq by exact Hlt.
      repeat split; try tauto; congruence.
    + exists (events o h [peek fd]), arr.
      rewrite <- play_events. repeat split; try tauto; try congruence; auto.
Qed.

(** The loop: [n] slots from index [i] on, all of them inside the array. *)
Lemma check_loop_ok (o : os) (n : nat) :
  forall (i : nat) (arr : list Z) (h : list event),
    (i + n <= length arr)%nat ->
    exists (segs : list (list event)) (arr' : list Z),
      check_loop n i arr o h = (h ++ concat segs, Returned arr')
      /\ length segs = n
      /\ length arr' = length arr
      /\ (forall j : nat, (j < i \/ i + n <= j)%nat -> arr' !! j = arr !! j)
      /\ (forall (k : nat) (fd : Z) (seg : list event),
            arr !! (i + k)%nat = Some fd -> segs !! k = Some seg ->
            slot_ok o (h ++ concat (take k segs)) fd seg (arr' !! (i + k)%nat)).
Proof.
  induction n as [|n IH]; intros i arr h Hlen.
  - exists [], arr. cbn [check_loop concat]. unfold mreturn. rewrite app_nil_r.
    split; [reflexivity|]. split; [reflexivity|]. split; [reflexivity|].
    split; [reflexivity|].
    intros k fd seg _ Hseg. rewrite lookup_nil in Hseg. discriminate.
  - destruct (lookup_lt_is_Some_2 arr i ltac:(lia)) as [fd Hi].
    destruct (check_slot_ok o h arr i fd Hi) as (seg0 & arr1 & Hrun & Hlen1 & Hframe1 & Hslot).
    destruct (IH (S i) arr1 (h ++ seg0) ltac:(lia))
      as (segs & arr' & Hloop & Hsegs & Hlen' & Hframe & Hslots).
    exists (seg0 :: segs), arr'. split; [|split; [|split; [|split]]].
    + cbn [check_loop]. unfold and_then. rewrite Hrun, Hloop.
      cbn [concat]. rewrite app_assoc. reflexivity.
    + cbn. lia.
    + lia.
    + intros j Hj. rewrite Hframe by lia. apply Hframe1. lia.
    + intros k fd' seg Hk Hseg. destruct k as [|k].
      * cbn in Hseg. injection Hseg as <-.
        rewrite Nat.add_0_r in Hk |- *. rewrite Hi in Hk. injection Hk as <-.
        cbn [take concat]. rewrite app_nil_r.
        rewrite Hframe by lia. exact Hslot.
      * cbn in Hseg. cbn [take concat]. rewrite app_assoc.
        replace (i + S k)%nat with (S i + k)%nat in Hk |- * by lia.
        apply Hslots; [|exact Hseg].
        rewrite Hframe1 by lia. exact Hk.
Qed.

(** The elements of the array beyond those the loop visits play no part:
    the run on a longer array is the run on the part visited. *)
Lemma check_slot_app (o : os) (h : list event) (pre suf : list Z) (i : nat) :
  (i < length pre)%nat ->
  check_slot (pre ++ suf) i o h
  = match check_slot pre i o h with
    | (log, Returned pre') => (log, Returned (pre' ++ suf))
    | r => r
    end.
Proof.
  intros Hi. destruct (lookup_lt_is_Some_2 pre i Hi) as [fd Hfd].
  assert (Hfd' : (pre ++ suf) !! i = Some fd) by (rewrite lookup_app_l; assumption).
  destruct (check_slot_run o h pre i fd Hfd) as (Hzero & Hgone & Hlive).
  destruct (check_slot_run o h (pre ++ suf) i fd Hfd') as (Hzero' & Hgone' & Hlive').
  destruct (decide (fd = 0)) as [Hz | Hz].
  - rewrite Hzero, Hzero' by exact Hz. reflexivity.
  - destruct (decide (to_int (ret (o h (peek fd))) = 0)) as [Hr | Hr].
    + rewrite Hgone, Hgone' by assumption. rewrite insert_app_l by exact Hi. reflexivity.
    + rewrite Hlive, Hlive' by assumption. reflexivity.
Qed.

Lemma check_loop_app (o : os) (suf : list Z) (n : nat) :
  forall (i : nat) (pre : list Z) (h : list event),
    (i + n <= length pre)%nat ->
    check_loop n i (pre ++ suf) o h
    = match check_loop n i pre o h with
      | (log, Returned pre') => (log, Returned (pre' ++ suf))
      | r => r
      end.
Proof.
  induction n as [|n IH]; intros i pre h Hlen; [reflexivity|].
  cbn [check_loop]. unfold and_then.
  rewrite check_slot_app by lia.
  destruct (lookup_lt_is_Some_2 pre i ltac:(lia)) as [fd Hfd].
  destruct (check_slot_ok o h pre i fd Hfd) as (seg0 & pre1 & -> & Hlen1 & _ & _).
  rewrite IH by lia. reflexivity.
Qed.

Lemma slot_ok_calls (o : os) (hk : list event) (fd : Z) (seg : list event)
    (final : option Z) :
  slot_ok o hk fd seg final ->
  forall e : event, e ∈ seg -> fd <> 0 /\ e.1 ∈ disconnect_calls fd.
Proof.
  intros [Hzero Hlive] e He.
  destruct (decide (fd = 0)) as [Hfd | Hfd].
  { destruct (Hzero Hfd) as [-> _]. apply elem_of_nil in He. destruct He. }
  split; [exact Hfd|].
  destruct (Hlive Hfd) as [Hgone Hstay].
  assert (Hin : e.1 ∈ calls_of seg) by (unfold calls_of; apply list_elem_of_fmap_2; exact He).
  destruct (decide (to_int (ret (o hk (peek fd))) = 0)) as [Hr | Hr].
  - destruct (Hgone Hr) as [-> _]. rewrite calls_of_events in Hin. exact Hin.
  - destruct (Hstay Hr) as [-> _]. rewrite calls_of_events in Hin.
    apply list_elem_of_singleton in Hin. rewrite Hin. unfold disconnect_calls. left.
Qed.

Lemma slot_ok_final (o : os) (hk : list event) (fd : Z) (seg : list event)
    (final : option Z) :
  slot_ok o hk fd seg final -> final = Some fd \/ final = Some 0.
Proof.
  intros [Hzero Hlive].
  destruct (decide (fd = 0)) as [Hfd | Hfd].
  { right. apply (Hzero Hfd). }
  destruct (Hlive Hfd) as [Hgone Hstay].
  destruct (decide (to_int (ret (o hk (peek fd))) = 0)) as [Hr | Hr].
  - right. apply (Hgone Hr).
  - left. apply (Hstay Hr).
Qed.

Lemma disconnect_calls_fd (fd fd' : Z) (c : call) :
  c ∈ disconnect_calls fd -> fd_of c = Some fd' -> fd' = fd.
Proof.
  unfold disconnect_calls, peek. intros Hc Hfd.
  repeat (apply elem_of_cons in Hc as [->|Hc]); cbn in Hfd; try congruence.
  apply elem_of_nil in Hc. destruct Hc.
Qed.

Lemma elem_of_concat {A : Type} (x : A) (ls : list (list A)) :
  x ∈ concat ls -> exists l : list A, x ∈ l /\ l ∈ ls.
Proof.
  induction ls as [|l ls IH]; cbn [concat]; intros Hx.
  - apply elem_of_nil in Hx. destruct Hx.
  - apply elem_of_app in Hx as [Hx | Hx].
    + exists l. split; [exact Hx | left].
    + destruct (IH Hx) as (l' & Hl' & Hin). exists l'. split; [exact Hl' | right; exact Hin].
Qed.

Lemma events_cons (o : os) (h : list event) (c : call) (cs : list call) :
  events o h (c :: cs) = (c, o h c) :: events o (h ++ [(c, o h c)]) cs.
Proof.
  pose proof (play_events o (h ++ [(c, o h c)]) cs) as Hp.
  unfold events at 1. cbn [play]. rewrite Hp.
  rewrite <- app_assoc, drop_app_length. reflexivity.
Qed.

(** C5. Let the array hold at least [iMaxClients] slots.  The scan visits
    the slots 0, 1, ..., [iMaxClients - 1] in order, and its log is the
    concatenation of what each slot adds.  For a slot [i] that holds a
    non-zero descriptor, the slot's events start with a peek of one byte on
    that descriptor with [MSG_PEEK | MSG_DONTWAIT].  If the peek returns 0 the
    slot's events are the peek, two prints and the [close] of the descriptor,
    and the slot is 0 afterwards.  If the peek returns a negative value the
    peek is the slot's only event (nothing is closed) and the slot keeps its
    descriptor; the same holds when the peek returns a positive count. *)
Theorem checkClientConnections_scan (o : os) (h : list event)
    (piClientSockets : list Z) (iMaxClients : Z) :
  recv_in_range o ->
  (Z.to_nat iMaxClients <= length piClientSockets)%nat ->
  exists (segs : list (list event)) (arr' : list Z),
    checkClientConnections piClientSockets iMaxClients o h
    = (h ++ concat segs, Returned arr')
    /\ length segs = Z.to_nat iMaxClients
    /\ forall (i : nat) (fd : Z) (seg : list event),
        piClientSockets !! i = Some fd -> segs !! i = Some seg -> fd <> 0 ->
        let before := h ++ concat (take i segs) in
        let peeked := ret (o before (peek fd)) in
        (exists rest : list event, seg = (peek fd, o before (peek fd)) :: rest)
        /\ (peeked = 0 ->
            seg = events o before (disconnect_calls fd)
            /\ calls_of seg = disconnect_calls fd
            /\ arr' !! i = Some 0)
        /\ (peeked < 0 ->
            seg = [(peek fd, o before (peek fd))]
            /\ count_in is_close (calls_of seg) = 0%nat
            /\ arr' !! i = Some fd)
        /\ (0 < peeked ->
            seg = [(peek fd, o before (peek fd))] /\ arr' !! i = Some fd).
Proof.
  intros Ho Hlen. unfold checkClientConnections.
  destruct (check_loop_ok o (Z.to_nat iMaxClients) 0 piClientSockets h Hlen)
    as (segs & arr' & Hrun & Hsegs & _ & _ & Hslots).
  exists segs, arr'. split; [exact Hrun|]. split; [exact Hsegs|].
  intros i fd seg Hi Hseg Hfd.
  set (before := h ++ concat (take i segs)).
  set (peeked := ret (o before (peek fd))).
  destruct (Hslots i fd seg Hi Hseg) as [_ Hlive].
  destruct (Hlive Hfd) as [Hgone Hstay]. clear Hlive Hslots.
  fold before in Hgone, Hstay. fold peeked in Hgone, Hstay.
  assert (Hfit : in_int peeked) by (apply recv_count_fits; exact Ho).
  rewrite (to_int_id _ Hfit) in Hgone, Hstay.
  assert (Hone : events o before [peek fd] = [(peek fd, o before (peek fd))])
    by (rewrite events_cons; unfold events; cbn [play]; rewrite drop_all; reflexivity).
  rewrite Hone in Hstay.
  split; [|split; [|split]].
  - destruct (decide (peeked = 0)) as [Hp | Hp].
    + destruct (Hgone Hp) as [-> _]. unfold disconnect_calls.
      rewrite events_cons. eexists. reflexivity.
    + destruct (Hstay Hp) as [-> _]. eexists. reflexivity.
  - intros Hp. destruct (Hgone Hp) as [-> Hslot].
    split; [reflexivity|]. split; [apply calls_of_events | exact Hslot].
  - intros Hp. destruct (Hstay ltac:(lia)) as [-> Hslot].
    split; [reflexivity|]. split; [reflexivity | exact Hslot].
  - intros Hp. destruct (Hstay ltac:(lia)) as [-> Hslot].
    split; [reflexivity | exact Hslot].
Qed.

Lemma checkClientConnections_scan_witness :
  recv_in_range os_clients
  /\ (Z.to_nat 3 <= length [4; 0; 5])%nat
  /\ exists (segs : list (list event)) (arr' : list Z),
      checkClientConnections [4; 0; 5] 3 os_clients [] = ([] ++ concat segs, Returned arr')
      /\ arr' !! 0%nat = Some 0
      /\ arr' !! 2%nat = Some 5.
Proof.
  assert (Hos : recv_in_range os_clients).
  { intros h fd len flags. unfold MAX_RW_COUNT. simpl.
    destruct (fd =? 4); lia. }
  assert (Hlen : (Z.to_nat 3 <= length [4; 0; 5])%nat) by (simpl; lia).
  split; [exact Hos|]. split; [exact Hlen|].
  destruct (checkClientConnections_scan os_clients [] [4; 0; 5] 3 Hos Hlen)
    as (segs & arr' & Hrun & Hsegs & Hslots).
  exists segs, arr'. split; [exact Hrun|].
  destruct (lookup_lt_is_Some_2 segs 0) as [seg0 Hseg0]; [rewrite Hsegs; simpl; lia|].
  destruct (lookup_lt_is_Some_2 segs 2) as [seg2 Hseg2]; [rewrite Hsegs; simpl; lia|].
  split.
  - destruct (Hslots 0%nat 4 seg0 eq_refl Hseg0 ltac:(lia)) as (_ & Hgone & _).
    destruct Hgone as (_ & _ & Hslot); [reflexivity | exact Hslot].
  - destruct (Hslots 2%nat 5 seg2 eq_refl Hseg2 ltac:(lia)) as (_ & _ & Hstay & _).
    destruct Hstay as (_ & _ & Hslot); [reflexivity | exact Hslot].
Defined.

(** C9. Let the array hold at least [iMaxClients] slots.  The scan returns
    an array of the same length such that: every descriptor handed to a call
    ([recv] or [close]) is a non-zero content of one of the first
    [iMaxClients] slots, so a slot that holds 0 is never handed to a call, and
    such a slot still holds 0 afterwards; every slot holds afterwards either
    what it held before or 0; the slots from [iMaxClients] on are unchanged;
    and nothing depends on them: with any other elements in their place the
    log is the same, the first [iMaxClients] slots end the same, and those
    other elements are left as they are. *)
Theorem checkClientConnections_frame (o : os) (h : list event)
    (piClientSockets : list Z) (iMaxClients : Z) :
  (Z.to_nat iMaxClients <= length piClientSockets)%nat ->
  exists (log : list event) (arr' : list Z),
    checkClientConnections piClientSockets iMaxClients o h = (h ++ log, Returned arr')
    /\ length arr' = length piClientSockets
    /\ (forall (e : event) (fd : Z),
          e ∈ log -> fd_of e.1 = Some fd ->
          fd <> 0
          /\ exists i : nat,
               (i < Z.to_nat iMaxClients)%nat /\ piClientSockets !! i = Some fd)
    /\ (forall i : nat, piClientSockets !! i = Some 0 -> arr' !! i = Some 0)
    /\ (forall (i : nat) (v : Z),
          arr' !! i = Some v -> piClientSockets !! i = Some v \/ v = 0)
    /\ (forall i : nat,
          (Z.to_nat iMaxClients <= i)%nat -> arr' !! i = piClientSockets !! i)
    /\ (forall others : list Z,
          checkClientConnections
            (take (Z.to_nat iMaxClients) piClientSockets ++ others) iMaxClients o h
          = (h ++ log, Returned (take (Z.to_nat iMaxClients) arr' ++ others))).
Proof.
  intros Hlen. unfold checkClientConnections.
  set (n := Z.to_nat iMaxClients) in *.
  destruct (check_loop_ok o n 0 piClientSockets h Hlen)
    as (segs & arr' & Hrun & Hsegs & Hlen' & Hframe & Hslots).
  cbn [Nat.add] in Hslots.
  exists (concat segs), arr'. split; [exact Hrun|]. split; [exact Hlen'|].
  assert (Hslot : forall i fd, (i < n)%nat -> piClientSockets !! i = Some fd ->
            exists seg, segs !! i = Some seg
              /\ slot_ok o (h ++ concat (take i segs)) fd seg (arr' !! i)).
  { intros i fd Hi Hfd.
    destruct (lookup_lt_is_Some_2 segs i ltac:(lia)) as [seg Hseg].
    exists seg. split; [exact Hseg|]. apply Hslots; assumption. }
  split; [|split; [|split; [|split]]].
  - intros e fd He Hfd.
    apply elem_of_concat in He as (seg & He & Hseg).
    apply list_elem_of_lookup_1 in Hseg as [i Hseg].
    pose proof (lookup_lt_Some _ _ _ Hseg) as Hi. rewrite Hsegs in Hi.
    destruct (lookup_lt_is_Some_2 piClientSockets i ltac:(lia)) as [fd' Hfd'].
    pose proof (Hslots i fd' seg Hfd' Hseg) as Hok.
    destruct (slot_ok_calls _ _ _ _ _ Hok e He) as [Hnz Hcall].
    rewrite (disconnect_calls_fd fd' fd e.1 Hcall Hfd).
    split; [exact Hnz|]. exists i. split; assumption.
  - intros i Hi. destruct (Nat.lt_ge_cases i n) as [Hlt | Hge].
    + destruct (Hslot i 0 Hlt Hi) as (seg & _ & [Hzero _]). apply Hzero. reflexivity.
    + rewrite Hframe by lia. exact Hi.
  - intros i v Hv. destruct (Nat.lt_ge_cases i n) as [Hlt | Hge].
    + destruct (lookup_lt_is_Some_2 piClientSockets i ltac:(lia)) as [fd Hfd].
      destruct (Hslot i fd Hlt Hfd) as (seg & _ & Hok).
      destruct (slot_ok_final _ _ _ _ _ Hok) as [Hkeep | Hnull];
        rewrite Hv in *; [left | right]; congruence.
    + left. rewrite <- Hframe by lia. exact Hv.
  - intros i Hi. apply Hframe. lia.
  - intros others.
    assert (Hpre : (0 + n <= length (take n piClientSockets))%nat)
      by (rewrite length_take; lia).
    rewrite (check_loop_app o others n 0 _ h Hpre).
    pose proof (check_loop_app o (drop n piClientSockets) n 0 _ h Hpre) as Hwhole.
    rewrite take_drop, Hrun in Hwhole.
    destruct (check_loop_ok o n 0 (take n piClientSockets) h Hpre)
      as (segs1 & pre' & Hrun1 & _ & Hlen1 & _ & _).
    rewrite Hrun1 in Hwhole |- *. injection Hwhole as Hlog Harr.
    rewrite Hlog, Harr. rewrite take_app_length'; [reflexivity|].
    rewrite Hlen1, length_take. lia.
Qed.

Lemma checkClientConnections_frame_witness :
  (Z.to_nat 3 <= length [4; 0; 5; 9])%nat
  /\ exists (log : list event) (arr' : list Z),
      checkClientConnections [4; 0; 5; 9] 3 os_clients [] = ([] ++ log, Returned arr')
      /\ arr' !! 1%nat = Some 0
      /\ arr' !! 3%nat = Some 9.
Proof.
  assert (Hlen : (Z.to_nat 3 <= length [4; 0; 5; 9])%nat) by (simpl; lia).
  split; [exact Hlen|].
  destruct (checkClientConnections_frame os_clients [] [4; 0; 5; 9] 3 Hlen)
    as (log & arr' & Hrun & _ & _ & Hzero & _ & Hframe & _).
  exists log, arr'. split; [exact Hrun|]. split.
  - apply Hzero. reflexivity.
  - rewrite Hframe by (simpl; lia). reflexivity.
Defined.

(** * Further properties of the code *)

(** ** Calls that do not touch the descriptor table *)

Lemma apply_event_inert (t : gmap Z sock) (e : event) :
  is_inert e.1 = true -> apply_event t e = t.
Proof.
  destruct e as [c a]. unfold apply_event. cbn [fst snd].
  destruct c; cbn [is_inert]; intros Hc; try discriminate; reflexivity.
Qed.

Lemma fd_table_play_inert (o : os) (cs : list call) :
  forall h : list event,
    forallb is_inert cs = true -> fd_table (play o h cs) = fd_table h.
Proof.
  induction cs as [|c cs IH]; intros h Hcs; [reflexivity|].
  cbn [forallb] in Hcs. apply andb_true_iff in Hcs as [Hc Hcs].
  cbn [play]. rewrite IH by exact Hcs.
  rewrite fd_table_snoc. apply apply_event_inert. exact Hc.
Qed.

Lemma recvMsgTimeout_inert (TCP_TIME_OUT TCP_DISCONNECTION : Z)
    (o : os) (h : list event) (iSock : Z) (pvBuffer : list byte)
    (iLength iTimeoutMsec : Z) :
  exists cs : list call,
    (recvMsgTimeout TCP_TIME_OUT TCP_DISCONNECTION iSock pvBuffer iLength
       iTimeoutMsec o h).1 = play o h cs
    /\ forallb is_inert cs = true
    /\ (count_in is_recv cs <= 1)%nat.
Proof.
  unfold recvMsgTimeout. run.
  next_test;
    [eexists [_; _]; split; [reflexivity | split; [reflexivity | vm_compute; lia]]|].
  next_test;
    [eexists [_; _]; split; [reflexivity | split; [reflexivity | vm_compute; lia]]|].
  next_test;
    [eexists [_; _; _]; split; [reflexivity | split; [reflexivity | vm_compute; lia]]|].
  next_test; eexists [_; _]; (split; [reflexivity | split; [reflexivity | vm_compute; lia]]).
Qed.

Lemma new_calls_play (o : os) (h : list event) (cs : list call) :
  calls_of (drop (length h) (play o h cs)) = cs.
Proof. apply calls_of_events. Qed.

(** ** The transfer functions *)

(** X1. [sendMessage], [recvMsgBlocking] and [recvMsgTimeout] open and
    close nothing: after each of them, on every path (failure, timeout and
    disconnection included), the descriptor table is what it was before
    the call. *)
Theorem transfer_keeps_descriptors (TCP_TIME_OUT TCP_DISCONNECTION : Z)
    (o : os) (h : list event) (iSock : Z) (buffer : list byte)
    (iLength iTimeoutMsec : Z) :
  fd_table (sendMessage iSock buffer iLength o h).1 = fd_table h
  /\ fd_table (recvMsgBlocking iSock buffer iLength o h).1 = fd_table h
  /\ fd_table (recvMsgTimeout TCP_TIME_OUT TCP_DISCONNECTION iSock buffer iLength
                 iTimeoutMsec o h).1 = fd_table h.
Proof.
  split; [|split].
  - destruct (sendMessage_run o h iSock buffer iLength) as [Hfail Hok].
    destruct (Z.lt_ge_cases (ret (o h (sys_send iSock buffer iLength 0))) 0) as [Hs | Hs].
    + rewrite (Hfail Hs). apply fd_table_play_inert. reflexivity.
    + rewrite (Hok Hs). apply fd_table_play_inert. reflexivity.
  - destruct (recvMsgBlocking_run o h iSock buffer iLength) as [Hfail Hok].
    destruct (Z.lt_ge_cases (ret (o h (sys_recv iSock iLength 0))) 0) as [Hr | Hr].
    + rewrite (Hfail Hr). apply fd_table_play_inert. reflexivity.
    + rewrite (Hok Hr). apply fd_table_play_inert. reflexivity.
  - destruct (recvMsgTimeout_inert TCP_TIME_OUT TCP_DISCONNECTION o h iSock buffer
                iLength iTimeoutMsec) as (cs & -> & Hcs & _).
    apply fd_table_play_inert. exact Hcs.
Qed.

(** X2. On a system whose [send] returns -1 or a count that fits an [int],
    [sendMessage] makes exactly one [send], with the caller's buffer and
    length, and returns exactly what that [send] returned: -1 on failure, and
    otherwise the count, also when [send] took fewer bytes than asked (there
    is no second [send] for the rest). *)
Theorem sendMessage_single_send (o : os) (h : list event) (iSock : Z)
    (cpvBuffer : list byte) (iLength : Z) :
  send_in_range o ->
  let c_send := sys_send iSock cpvBuffer iLength 0 in
  let result := sendMessage iSock cpvBuffer iLength o h in
  result.2 = Returned (ret (o h c_send))
  /\ (exists rest : list call,
        result.1 = play o h (c_send :: rest)
        /\ count_in is_send (c_send :: rest) = 1%nat).
Proof.
  intros Ho c_send result.
  pose proof (Ho h iSock cpvBuffer iLength 0) as Hrng. fold c_send in Hrng.
  destruct (sendMessage_run o h iSock cpvBuffer iLength) as [Hfail Hok].
  fold c_send in Hfail, Hok. fold result in Hfail, Hok.
  destruct (Z.lt_ge_cases (ret (o h c_send)) 0) as [Hs | Hs].
  - rewrite (Hfail Hs). split.
    + cbn [snd]. f_equal. lia.
    + exists [sys_perror "send failed"]. split; reflexivity.
  - rewrite (Hok Hs). split.
    + cbn [snd]. f_equal. apply to_int_id.
      unfold in_int, INT_MIN, INT_MAX, MAX_RW_COUNT in *. lia.
    + exists []. split; reflexivity.
Qed.

Lemma sendMessage_single_send_witness :
  send_in_range os_short_send
  /\ (sendMessage 3 hello 14 os_short_send []).2 = Returned 5.
Proof.
  assert (Hos : send_in_range os_short_send).
  { intros h fd buf len flags. unfold MAX_RW_COUNT. simpl. lia. }
  split; [exact Hos|].
  destruct (sendMessage_single_send os_short_send [] 3 hello 14 Hos) as [Hres _].
  exact Hres.
Defined.

(** X3. On a system whose [recv] returns -1 or a count that fits an [int],
    [recvMsgBlocking] makes exactly one [recv] and returns exactly what it
    returned, with the caller's buffer as [recv] left it: -1 on failure, the
    count otherwise.  A return of 0 is therefore all the caller sees of a
    closed peer: no sentinel is substituted. *)
Theorem recvMsgBlocking_single_recv (o : os) (h : list event) (iSock : Z)
    (pvBuffer : list byte) (iLength : Z) :
  recv_in_range o ->
  let c_recv := sys_recv iSock iLength 0 in
  let result := recvMsgBlocking iSock pvBuffer iLength o h in
  result.2 = Returned (ret (o h c_recv), store_bytes pvBuffer (out (o h c_recv)))
  /\ (exists rest : list call,
        result.1 = play o h (c_recv :: rest)
        /\ count_in is_recv (c_recv :: rest) = 1%nat).
Proof.
  intros Ho c_recv result.
  pose proof (Ho h iSock iLength 0) as Hrng. fold c_recv in Hrng.
  destruct (recvMsgBlocking_run o h iSock pvBuffer iLength) as [Hfail Hok].
  fold c_recv in Hfail, Hok. fold result in Hfail, Hok.
  destruct (Z.lt_ge_cases (ret (o h c_recv)) 0) as [Hr | Hr].
  - rewrite (Hfail Hr). split.
    + cbn [snd]. do 2 f_equal. lia.
    + exists [sys_perror "recv failed"]. split; reflexivity.
  - rewrite (Hok Hr). split.
    + cbn [snd]. do 2 f_equal. apply to_int_id.
      unfold in_int, INT_MIN, INT_MAX, MAX_RW_COUNT in *. lia.
    + exists []. split; reflexivity.
Qed.

Lemma recvMsgBlocking_single_recv_witness :
  recv_in_range os_hello
  /\ (recvMsgBlocking 3 (repeat x00 128) 128 os_hello []).2
     = Returned (14, hello ++ repeat x00 114).
Proof.
  assert (Hos : recv_in_range os_hello).
  { intros h fd len flags. unfold MAX_RW_COUNT. simpl. lia. }
  split; [exact Hos|].
  destruct (recvMsgBlocking_single_recv os_hello [] 3 (repeat x00 128) 128 Hos)
    as [Hres _].
  exact Hres.
Defined.

(** X4. Once [select] has reported the descriptor readable,
    [recvMsgTimeout] is [recvMsgBlocking] run from that point on: same calls,
    same buffer, same return value, with the one difference that a [recv] of
    0 comes back as [TCP_DISCONNECTION] instead of 0. *)
Theorem recvMsgTimeout_ready_is_blocking (TCP_TIME_OUT TCP_DISCONNECTION : Z)
    (o : os) (h : list event) (iSock : Z) (pvBuffer : list byte)
    (iLength iTimeoutMsec : Z) :
  recv_in_range o ->
  let c_select := sys_select (to_int (iSock + 1)) [iSock] (timeout_of iTimeoutMsec) in
  0 < ret (o h c_select) ->
  let blocking := recvMsgBlocking iSock pvBuffer iLength o (h ++ [(c_select, o h c_select)]) in
  recvMsgTimeout TCP_TIME_OUT TCP_DISCONNECTION iSock pvBuffer iLength iTimeoutMsec o h
  = (blocking.1,
     match blocking.2 with
     | Returned (n, buf) => Returned (if n =? 0 then TCP_DISCONNECTION else n, buf)
     | Exited s => Exited s
     | Fault => Fault
     end).
Proof.
  intros Ho. cbv zeta. intros Hready.
  pose proof (recv_count_fits o (h ++ [(sys_select (to_int (iSock + 1))
    [iSock] (timeout_of iTimeoutMsec), o h (sys_select (to_int (iSock + 1)) [iSock]
    (timeout_of iTimeoutMsec)))]) iSock iLength 0 Ho) as Hfit.
  unfold recvMsgBlocking, recvMsgTimeout. run.
  repeat next_test; rewrite ?(to_int_id _ Hfit) in *;
    first [reflexivity | exfalso; lia].
Qed.

Lemma recvMsgTimeout_ready_is_blocking_witness :
  recv_in_range os_hello
  /\ recvMsgTimeout 0 (-2) 3 (repeat x00 128) 128 300 os_hello []
     = ((recvMsgBlocking 3 (repeat x00 128) 128 os_hello
           [(sys_select 4 [3] (mk_timeval 0 300000), mk_answer 1 [])]).1,
        Returned (14, hello ++ repeat x00 114)).
Proof.
  assert (Hos : recv_in_range os_hello).
  { intros h fd len flags. unfold MAX_RW_COUNT. simpl. lia. }
  split; [exact Hos|].
  rewrite (recvMsgTimeout_ready_is_blocking 0 (-2) os_hello [] 3 (repeat x00 128)
             128 300 Hos); [reflexivity | simpl; lia].
Defined.

(** X5. Let the two sentinels be at most 0 and let [recv] return -1 or a
    count that fits an [int].  Then [recvMsgTimeout] always returns, and its
    value is positive exactly when [select] reported readability and [recv]
    delivered at least one byte; the value is then that byte count.  A caller
    that tests the result for [> 0] never takes a timeout, a disconnection or
    an error for data. *)
Theorem recvMsgTimeout_positive_is_data (TCP_TIME_OUT TCP_DISCONNECTION : Z)
    (o : os) (h : list event) (iSock : Z) (pvBuffer : list byte)
    (iLength iTimeoutMsec : Z) :
  TCP_TIME_OUT <= 0 -> TCP_DISCONNECTION <= 0 -> recv_in_range o ->
  let c_select := sys_select (to_int (iSock + 1)) [iSock] (timeout_of iTimeoutMsec) in
  let ready := ret (o h c_select) in
  let received := ret (answer_after o h [c_select] (sys_recv iSock iLength 0)) in
  exists (n : Z) (buf : list byte),
    (recvMsgTimeout TCP_TIME_OUT TCP_DISCONNECTION iSock pvBuffer iLength
       iTimeoutMsec o h).2 = Returned (n, buf)
    /\ (0 < n <-> 0 < ready /\ 0 < received)
    /\ (0 < n -> n = received).
Proof.
  intros Hto Hdis Ho.
  pose proof (recv_count_fits o (h ++ [(sys_select (to_int (iSock + 1))
    [iSock] (timeout_of iTimeoutMsec), o h (sys_select (to_int (iSock + 1)) [iSock]
    (timeout_of iTimeoutMsec)))]) iSock iLength 0 Ho) as Hfit.
  unfold recvMsgTimeout. run.
  repeat next_test; eexists _, _; (split; [reflexivity|]);
    rewrite ?(to_int_id _ Hfit); split; lia.
Qed.

Lemma recvMsgTimeout_positive_is_data_witness :
  recv_in_range os_hello
  /\ exists (n : Z) (buf : list byte),
      (recvMsgTimeout 0 (-2) 3 (repeat x00 128) 128 300 os_hello []).2
      = Returned (n, buf)
      /\ n = 14.
Proof.
  assert (Hos : recv_in_range os_hello).
  { intros h fd len flags. unfold MAX_RW_COUNT. simpl. lia. }
  split; [exact Hos|].
  destruct (recvMsgTimeout_positive_is_data 0 (-2) os_hello [] 3 (repeat x00 128)
              128 300 ltac:(lia) ltac:(lia) Hos) as (n & buf & Hrun & Hiff & Hval).
  exists n, buf. split; [exact Hrun|].
  apply Hval. apply Hiff. split; simpl; lia.
Defined.

(** ** createServerSocket, step by step *)

(** Every run of [createServerSocket] makes a non-empty prefix of the
    set-up calls and, unless it made them all, one [perror] before the exit. *)
Lemma createServerSocket_paths (o : os) (h : list event) (iPort iMaxClients : Z) :
  let fd := ret (o h (sys_socket AF_INET SOCK_STREAM 0)) in
  let cs := setup_calls fd iPort iMaxClients in
  (exists k : nat,
      (1 <= k <= 8)%nat
      /\ (k = 1%nat <-> fd = 0)
      /\ createServerSocket iPort iMaxClients o h
         = (play o h (take k cs ++ [sys_perror (failure_message k)]),
            Exited EXIT_FAILURE))
  \/ createServerSocket iPort iMaxClients o h = (play o h cs, Returned fd).
Proof.
  unfold createServerSocket. run.
  next_test; [left; exists 1%nat; split; [lia | split; [tauto | reflexivity]]|].
  next_test; [left; exists 2%nat; split; [lia | split; [lia | reflexivity]]|].
  next_test; [left; exists 3%nat; split; [lia | split; [lia | reflexivity]]|].
  next_test; [left; exists 4%nat; split; [lia | split; [lia | reflexivity]]|].
  next_test; [left; exists 5%nat; split; [lia | split; [lia | reflexivity]]|].
  next_test; [left; exists 6%nat; split; [lia | split; [lia | reflexivity]]|].
  next_test; [left; exists 7%nat; split; [lia | split; [lia | reflexivity]]|].
  next_test; [left; exists 8%nat; split; [lia | split; [lia | reflexivity]]|].
  right. reflexivity.
Qed.

(** X6. [createServerSocket] goes through its eight steps in order and
    stops at the first one whose test fails, after one [perror] that names the
    step, with [exit(EXIT_FAILURE)] and without any further call (in
    particular without closing the descriptor).  The tests are: [socket]
    returned 0; the address-reuse [setsockopt] returned non-zero; any later
    [setsockopt], [bind] or [listen] returned a negative value.  When no test
    fails the function returns the descriptor. *)
Theorem createServerSocket_steps (o : os) (h : list event) (iPort iMaxClients : Z) :
  let c1 := sys_socket AF_INET SOCK_STREAM 0 in
  let fd := ret (o h c1) in
  let c2 := sys_setsockopt fd SOL_SOCKET (Z.lor SO_REUSEADDR SO_REUSEPORT) 1 sizeof_int in
  let c3 := sys_setsockopt fd SOL_SOCKET SO_KEEPALIVE 1 sizeof_int in
  let c4 := sys_setsockopt fd IPPROTO_TCP TCP_KEEPIDLE 10 sizeof_int in
  let c5 := sys_setsockopt fd IPPROTO_TCP TCP_KEEPINTVL 5 sizeof_int in
  let c6 := sys_setsockopt fd IPPROTO_TCP TCP_KEEPCNT 3 sizeof_int in
  let c7 := sys_bind fd (mk_sockaddr_in AF_INET (htons iPort) INADDR_ANY)
              sizeof_sockaddr_in in
  let c8 := sys_listen fd iMaxClients in
  let r2 := ret (answer_after o h [c1] c2) in
  let r3 := ret (answer_after o h [c1; c2] c3) in
  let r4 := ret (answer_after o h [c1; c2; c3] c4) in
  let r5 := ret (answer_after o h [c1; c2; c3; c4] c5) in
  let r6 := ret (answer_after o h [c1; c2; c3; c4; c5] c6) in
  let r7 := ret (answer_after o h [c1; c2; c3; c4; c5; c6] c7) in
  let r8 := ret (answer_after o h [c1; c2; c3; c4; c5; c6; c7] c8) in
  let result := createServerSocket iPort iMaxClients o h in
  let exits (cs : list call) (msg : string) :=
    result = (play o h (cs ++ [sys_perror msg]), Exited EXIT_FAILURE) in
  (fd = 0 -> exits [c1] "Socket failed"%string)
  /\ (fd <> 0 -> r2 <> 0 -> exits [c1; c2] "Setsockopt failed"%string)
  /\ (fd <> 0 -> r2 = 0 -> r3 < 0 ->
      exits [c1; c2; c3] "Setsockopt SO_KEEPALIVE failed"%string)
  /\ (fd <> 0 -> r2 = 0 -> 0 <= r3 -> r4 < 0 ->
      exits [c1; c2; c3; c4] "Setsockopt TCP_KEEPIDLE failed"%string)
  /\ (fd <> 0 -> r2 = 0 -> 0 <= r3 -> 0 <= r4 -> r5 < 0 ->
      exits [c1; c2; c3; c4; c5] "Setsockopt TCP_KEEPINTVL failed"%string)
  /\ (fd <> 0 -> r2 = 0 -> 0 <= r3 -> 0 <= r4 -> 0 <= r5 -> r6 < 0 ->
      exits [c1; c2; c3; c4; c5; c6] "Setsockopt TCP_KEEPCNT failed"%string)
  /\ (fd <> 0 -> r2 = 0 -> 0 <= r3 -> 0 <= r4 -> 0 <= r5 -> 0 <= r6 -> r7 < 0 ->
      exits [c1; c2; c3; c4; c5; c6; c7] "Bind failed"%string)
  /\ (fd <> 0 -> r2 = 0 -> 0 <= r3 -> 0 <= r4 -> 0 <= r5 -> 0 <= r6 -> 0 <= r7 ->
      r8 < 0 ->
      exits [c1; c2; c3; c4; c5; c6; c7; c8] "Listen failed"%string)
  /\ (fd <> 0 -> r2 = 0 -> 0 <= r3 -> 0 <= r4 -> 0 <= r5 -> 0 <= r6 -> 0 <= r7 ->
      0 <= r8 ->
      result = (play o h [c1; c2; c3; c4; c5; c6; c7; c8], Returned fd)).
Proof.
  unfold createServerSocket. cbv zeta. run.
  repeat split; intros; repeat next_test; reflexivity.
Qed.

Lemma createServerSocket_steps_witness :
  createServerSocket 12347 5 os_up []
  = (play os_up [] (setup_calls 3 12347 5), Returned 3).
Proof.
  destruct (createServerSocket_steps os_up [] 12347 5)
    as (_ & _ & _ & _ & _ & _ & _ & _ & Hrun).
  apply Hrun; simpl; lia.
Defined.

(** X7. The test after [socket] compares the descriptor with 0.  So a
    [socket] that succeeds with descriptor 0 ends the process with "Socket
    failed"; and, on a system that refuses [setsockopt] on a negative
    descriptor, a [socket] that fails is not caught by that test: the
    function goes on to the address-reuse [setsockopt] on the negative
    descriptor and exits with "Setsockopt failed".  "Socket failed" is
    printed for descriptor 0 only. *)
Theorem createServerSocket_socket_check (o : os) (h : list event)
    (iPort iMaxClients : Z) :
  rejects_bad_fd o ->
  let c1 := sys_socket AF_INET SOCK_STREAM 0 in
  let fd := ret (o h c1) in
  let c2 := sys_setsockopt fd SOL_SOCKET (Z.lor SO_REUSEADDR SO_REUSEPORT) 1 sizeof_int in
  let result := createServerSocket iPort iMaxClients o h in
  (fd = 0 ->
     result = (play o h [c1; sys_perror "Socket failed"], Exited EXIT_FAILURE))
  /\ (fd < 0 ->
     result = (play o h [c1; c2; sys_perror "Setsockopt failed"], Exited EXIT_FAILURE))
  /\ (sys_perror "Socket failed" ∈ calls_of (drop (length h) result.1) <-> fd = 0).
Proof.
  intros Hbad c1 fd c2 result.
  assert (Hzero : fd = 0 ->
            result = (play o h [c1; sys_perror "Socket failed"], Exited EXIT_FAILURE)).
  { unfold result, createServerSocket, fd, c1. run. intros Hz. next_test. reflexivity. }
  split; [exact Hzero|]. split.
  - intros Hneg.
    pose proof (Hbad (h ++ [(c1, o h c1)]) fd SOL_SOCKET
                  (Z.lor SO_REUSEADDR SO_REUSEPORT) 1 sizeof_int Hneg) as Hopt.
    unfold result, createServerSocket, c2. unfold fd, c1 in *. run.
    repeat next_test. reflexivity.
  - split; [|intros Hz; rewrite (Hzero Hz); cbn [fst]; rewrite new_calls_play; right; left].
    intros Hin.
    destruct (createServerSocket_paths o h iPort iMaxClients)
      as [(k & Hk & Hfirst & Hrun) | Hrun];
      fold c1 in Hrun; fold fd in Hrun; fold result in Hrun;
      rewrite Hrun in Hin; cbn [fst] in Hin; rewrite new_calls_play in Hin.
    + apply elem_of_app in Hin as [Hin | Hin].
      * apply elem_of_take in Hin as (i & Hin & _).
        apply list_elem_of_lookup_2 in Hin. unfold setup_calls in Hin.
        repeat (apply elem_of_cons in Hin as [Hin | Hin]; [discriminate Hin|]).
        apply elem_of_nil in Hin. destruct Hin.
      * apply list_elem_of_singleton in Hin. apply Hfirst.
        destruct k as [|[|[|[|[|[|[|[|[|k]]]]]]]]];
          try lia; try discriminate Hin.
    + unfold setup_calls in Hin.
      repeat (apply elem_of_cons in Hin as [Hin | Hin]; [discriminate Hin|]).
      apply elem_of_nil in Hin. destruct Hin.
Qed.

Lemma createServerSocket_socket_check_witness :
  rejects_bad_fd os_no_socket
  /\ createServerSocket 12347 5 os_no_socket []
     = (play os_no_socket []
          [sys_socket AF_INET SOCK_STREAM 0;
           sys_setsockopt (-1) SOL_SOCKET (Z.lor SO_REUSEADDR SO_REUSEPORT) 1 sizeof_int;
           sys_perror "Setsockopt failed"],
        Exited EXIT_FAILURE).
Proof.
  assert (Hos : rejects_bad_fd os_no_socket).
  { intros h fd level optname optval optlen Hfd. simpl.
    rewrite (proj2 (Z.ltb_lt fd 0) Hfd). reflexivity. }
  split; [exact Hos|].
  destruct (createServerSocket_socket_check os_no_socket [] 12347 5 Hos)
    as (_ & Hneg & _).
  apply Hneg. simpl. lia.
Defined.

(** X8. With the values the two constants have on Linux (2 and 15), the
    option name [SO_REUSEADDR | SO_REUSEPORT] that [createServerSocket] hands
    to [setsockopt] is [SO_REUSEPORT] itself.  On no path does the function
    make a [setsockopt] that names [SO_REUSEADDR]; whenever [socket] returned
    a non-zero descriptor, it does set [SO_REUSEPORT] to 1 on it. *)
Theorem createServerSocket_reuse_option (o : os) (h : list event)
    (iPort iMaxClients : Z) :
  let fd := ret (o h (sys_socket AF_INET SOCK_STREAM 0)) in
  let calls := calls_of (drop (length h) (createServerSocket iPort iMaxClients o h).1) in
  Z.lor SO_REUSEADDR SO_REUSEPORT = SO_REUSEPORT
  /\ (forall (c : call) (fd' optval optlen : Z),
        c ∈ calls -> c <> sys_setsockopt fd' SOL_SOCKET SO_REUSEADDR optval optlen)
  /\ (fd <> 0 -> sys_setsockopt fd SOL_SOCKET SO_REUSEPORT 1 sizeof_int ∈ calls).
Proof.
  intros fd calls. split; [reflexivity|].
  assert (Hsetup : forall (c : call) (fd' optval optlen : Z),
            c ∈ setup_calls fd iPort iMaxClients ->
            c <> sys_setsockopt fd' SOL_SOCKET SO_REUSEADDR optval optlen).
  { intros c fd' optval optlen Hc. unfold setup_calls in Hc.
    repeat (apply elem_of_cons in Hc as [-> | Hc]; [discriminate|]).
    apply elem_of_nil in Hc. destruct Hc. }
  destruct (createServerSocket_paths o h iPort iMaxClients)
    as [(k & Hk & Hfirst & Hrun) | Hrun];
    fold fd in Hrun; unfold calls; rewrite Hrun; cbn [fst]; rewrite new_calls_play.
  - fold fd in Hfirst. split.
    + intros c fd' optval optlen Hc. apply elem_of_app in Hc as [Hc | Hc].
      * apply elem_of_take in Hc as (i & Hc & _).
        apply list_elem_of_lookup_2 in Hc. apply Hsetup. exact Hc.
      * apply list_elem_of_singleton in Hc. rewrite Hc. discriminate.
    + intros Hfd. apply elem_of_app. left. apply elem_of_take.
      exists 1%nat. split; [reflexivity|].
      destruct (decide (k = 1%nat)) as [Hk1 | Hk1]; [|lia].
      apply Hfirst in Hk1. contradiction.
  - split.
    + intros c fd' optval optlen Hc. apply Hsetup. exact Hc.
    + intros _. unfold setup_calls. right. left.
Qed.

(** ** setSocketBufferSize and handleClientDisconnection *)

Lemma socket_frame_refl (fd : Z) (touched : list (Z * Z)) (t : gmap Z sock) :
  socket_frame fd touched t t.
Proof. unfold socket_frame. repeat split; auto. Qed.

Lemma socket_frame_trans (fd : Z) (touched : list (Z * Z)) (t1 t2 t3 : gmap Z sock) :
  socket_frame fd touched t1 t2 -> socket_frame fd touched t2 t3 ->
  socket_frame fd touched t1 t3.
Proof.
  intros (A1 & A2 & A3 & A4 & A5 & A6) (B1 & B2 & B3 & B4 & B5 & B6).
  unfold socket_frame. repeat split.
  - intros fd' Hfd'. rewrite B1, A1 by exact Hfd'. reflexivity.
  - intros H3. apply A2, B2, H3.
  - intros H1. apply B2, A2, H1.
  - intros key Hkey. rewrite B3, A3 by exact Hkey. reflexivity.
  - rewrite B4. exact A4.
  - rewrite B5. exact A5.
  - rewrite B6. exact A6.
Qed.

Lemma socket_frame_setsockopt (t : gmap Z sock) (fd level optname optval optlen : Z)
    (a : answer) (touched : list (Z * Z)) :
  (level, optname) ∈ touched ->
  socket_frame fd touched t
    (apply_event t (sys_setsockopt fd level optname optval optlen, a)).
Proof.
  intros Hin. unfold apply_event. cbn [fst snd].
  destruct (0 <=? ret a); [|apply socket_frame_refl].
  unfold socket_frame. rewrite lookup_alter_eq.
  split; [intros fd' Hfd'; apply lookup_alter_ne; congruence|].
  destruct (t !! fd) as [s|]; cbn; repeat split; try (intros [? ?]; eauto; fail); eauto.
  intros key Hkey. apply lookup_insert_ne. intros <-. contradiction.
Qed.

Lemma fd_table_perror (h : list event) (msg : string) (a : answer) :
  fd_table (h ++ [(sys_perror msg, a)]) = fd_table h.
Proof. rewrite fd_table_snoc. reflexivity. Qed.

Lemma setSocketBufferSize_frame_table (o : os) (h : list event)
    (iSock iRxSize iTxSize : Z) :
  socket_frame iSock [(SOL_SOCKET, SO_RCVBUF); (SOL_SOCKET, SO_SNDBUF)]
    (fd_table h) (fd_table (setSocketBufferSize iSock iRxSize iTxSize o h).1).
Proof.
  set (c_rx := sys_setsockopt iSock SOL_SOCKET SO_RCVBUF iRxSize sizeof_int).
  set (c_tx := sys_setsockopt iSock SOL_SOCKET SO_SNDBUF iTxSize sizeof_int).
  destruct (setSocketBufferSize_run o h iSock iRxSize iTxSize) as (Hrx & Htx & Hok).
  fold c_rx c_tx in Hrx, Htx, Hok.
  assert (Hf1 : socket_frame iSock [(SOL_SOCKET, SO_RCVBUF); (SOL_SOCKET, SO_SNDBUF)]
                  (fd_table h) (fd_table (play o h [c_rx]))).
  { cbn [play]. rewrite fd_table_snoc. apply socket_frame_setsockopt. left. }
  assert (Hf2 : socket_frame iSock [(SOL_SOCKET, SO_RCVBUF); (SOL_SOCKET, SO_SNDBUF)]
                  (fd_table h) (fd_table (play o h [c_rx; c_tx]))).
  { eapply socket_frame_trans; [exact Hf1|].
    change [c_rx; c_tx] with ([c_rx] ++ [c_tx]). rewrite play_snoc, fd_table_snoc.
    apply socket_frame_setsockopt. right. left. }
  destruct (Z.lt_ge_cases (ret (o h c_rx)) 0) as [H1 | H1].
  - rewrite (Hrx H1). cbn [fst].
    change [c_rx; sys_perror "Setsockopt SO_RCVBUF failed"]
      with ([c_rx] ++ [sys_perror "Setsockopt SO_RCVBUF failed"]).
    rewrite play_snoc, fd_table_perror. exact Hf1.
  - destruct (Z.lt_ge_cases (ret (answer_after o h [c_rx] c_tx)) 0) as [H2 | H2].
    + rewrite (Htx H1 H2). cbn [fst].
      change [c_rx; c_tx; sys_perror "Setsockopt SO_SNDBUF failed"]
        with ([c_rx; c_tx] ++ [sys_perror "Setsockopt SO_SNDBUF failed"]).
      rewrite play_snoc, fd_table_perror. exact Hf2.
    + rewrite (Hok H1 H2). exact Hf2.
Qed.

(** X9. [setSocketBufferSize] returns only when both options were set
    ([SO_RCVBUF] first, then [SO_SNDBUF]); otherwise the process exits with
    [EXIT_FAILURE], and [SO_SNDBUF] is not attempted once [SO_RCVBUF] has
    failed.  On every path the function touches nothing but these two options
    of its descriptor: no descriptor is opened or closed, every other
    descriptor keeps its entry, and the descriptor keeps its other options
    (the keep-alive ones among them), its local address, backlog and peer. *)
Theorem setSocketBufferSize_frame (o : os) (h : list event) (iSock iRxSize iTxSize : Z) :
  let c_rx := sys_setsockopt iSock SOL_SOCKET SO_RCVBUF iRxSize sizeof_int in
  let c_tx := sys_setsockopt iSock SOL_SOCKET SO_SNDBUF iTxSize sizeof_int in
  let result := setSocketBufferSize iSock iRxSize iTxSize o h in
  (result.2 = Returned tt
     <-> 0 <= ret (o h c_rx) /\ 0 <= ret (answer_after o h [c_rx] c_tx))
  /\ (result.2 <> Returned tt -> result.2 = Exited EXIT_FAILURE)
  /\ (ret (o h c_rx) < 0 -> c_tx ∉ calls_of (drop (length h) result.1))
  /\ socket_frame iSock [(SOL_SOCKET, SO_RCVBUF); (SOL_SOCKET, SO_SNDBUF)]
       (fd_table h) (fd_table result.1).
Proof.
  intros c_rx c_tx result.
  destruct (setSocketBufferSize_run o h iSock iRxSize iTxSize) as (Hrx & Htx & Hok).
  fold c_rx c_tx in Hrx, Htx, Hok. fold result in Hrx, Htx, Hok.
  pose proof (setSocketBufferSize_frame_table o h iSock iRxSize iTxSize) as Hframe.
  fold result in Hframe.
  split; [|split; [|split; [|exact Hframe]]].
  - destruct (Z.lt_ge_cases (ret (o h c_rx)) 0) as [H1 | H1].
    + rewrite (Hrx H1). cbn [snd]. split; [discriminate | lia].
    + destruct (Z.lt_ge_cases (ret (answer_after o h [c_rx] c_tx)) 0) as [H2 | H2].
      * rewrite (Htx H1 H2). cbn [snd]. split; [discriminate | lia].
      * rewrite (Hok H1 H2). cbn [snd]. split; [intros _; split; assumption | reflexivity].
  - destruct (Z.lt_ge_cases (ret (o h c_rx)) 0) as [H1 | H1].
    + rewrite (Hrx H1). reflexivity.
    + destruct (Z.lt_ge_cases (ret (answer_after o h [c_rx] c_tx)) 0) as [H2 | H2].
      * rewrite (Htx H1 H2). reflexivity.
      * rewrite (Hok H1 H2). intros Hne. contradiction.
  - intros H1. rewrite (Hrx H1). cbn [fst]. rewrite new_calls_play. intros Hin.
    apply elem_of_cons in Hin as [Hin | Hin]; [discriminate Hin|].
    apply list_elem_of_singleton in Hin. discriminate Hin.
Qed.

(** X10. [handleClientDisconnection] prints one line and closes its
    argument, whatever [close] returns, and returns: afterwards the
    descriptor table is the one before with that descriptor removed, so the
    descriptor is not open and every other descriptor is as it was. *)
Theorem handleClientDisconnection_closes (o : os) (h : list event) (iClientSockfd : Z) :
  let result := handleClientDisconnection iClientSockfd o h in
  result
  = (play o h [sys_printf "Client disconnected, closing socket\n" [];
               sys_close iClientSockfd],
     Returned tt)
  /\ fd_table result.1 = delete iClientSockfd (fd_table h)
  /\ ~ is_open result.1 iClientSockfd.
Proof.
  unfold handleClientDisconnection. run. split; [reflexivity|]. cbn [fst]. split.
  - rewrite !fd_table_snoc. reflexivity.
  - apply not_open_close.
Qed.

(** ** isPortAvailable and the descriptor table *)

(** X11. [isPortAvailable] has no lasting effect on the descriptors of the
    process: when [socket] fails the table is untouched, and otherwise the
    table afterwards is the one before with the temporary descriptor
    removed, whatever [bind] did; if that descriptor was not open before, as
    for a descriptor fresh from [socket], the table is exactly what it
    was. *)
Theorem isPortAvailable_restores_descriptors (o : os) (h : list event) (iPort : Z) :
  let fd := ret (o h (sys_socket AF_INET SOCK_STREAM 0)) in
  let log := (isPortAvailable iPort o h).1 in
  (fd < 0 -> fd_table log = fd_table h)
  /\ (0 <= fd -> fd_table log = delete fd (fd_table h))
  /\ (~ is_open h fd -> fd_table log = fd_table h).
Proof.
  intros fd log.
  assert (Hneg : fd < 0 -> fd_table log = fd_table h).
  { intros Hfd. unfold log, isPortAvailable, fd in *. run. next_test. cbn [fst].
    rewrite fd_table_snoc. unfold apply_event. cbn [fst snd].
    destruct (Z.leb_spec 0 (ret (o h (sys_socket AF_INET SOCK_STREAM 0))));
      [lia | reflexivity]. }
  assert (Hpos : 0 <= fd -> fd_table log = delete fd (fd_table h)).
  { intros Hfd. unfold log. rewrite (isPortAvailable_run o h iPort Hfd). fold fd.
    cbn [play]. rewrite !fd_table_snoc.
    set (t1 := apply_event (fd_table h) (sys_socket AF_INET SOCK_STREAM 0, _)).
    assert (Ht1 : t1 = <[fd := new_sock]> (fd_table h)).
    { unfold t1, apply_event. cbn [fst snd]. fold fd.
      destruct (Z.leb_spec 0 fd); [reflexivity | lia]. }
    unfold apply_event at 1. cbn [fst snd].
    unfold apply_event at 1. cbn [fst snd].
    destruct (0 <=? _).
    - rewrite delete_alter_eq, Ht1, delete_insert_eq. reflexivity.
    - rewrite Ht1, delete_insert_eq. reflexivity. }
  split; [exact Hneg|]. split; [exact Hpos|].
  intros Hclosed. destruct (Z.lt_ge_cases fd 0) as [Hfd | Hfd]; [auto|].
  rewrite (Hpos Hfd). apply delete_id.
  unfold is_open in Hclosed. destruct (fd_table h !! fd) eqn:E; [|reflexivity].
  exfalso. apply Hclosed. eauto.
Qed.

(** ** createServerSocket followed by setSocketBufferSize *)

Lemma createServerSocket_table (o : os) (h : list event) (iPort iMaxClients v : Z) :
  rejects_bad_fd o ->
  (createServerSocket iPort iMaxClients o h).2 = Returned v ->
  fd_table (createServerSocket iPort iMaxClients o h).1 !! v
  = Some (mk_sock
            (<[(IPPROTO_TCP, TCP_KEEPCNT) := 3]>
              (<[(IPPROTO_TCP, TCP_KEEPINTVL) := 5]>
                (<[(IPPROTO_TCP, TCP_KEEPIDLE) := 10]>
                  (<[(SOL_SOCKET, SO_KEEPALIVE) := 1]>
                    (<[(SOL_SOCKET, Z.lor SO_REUSEADDR SO_REUSEPORT) := 1]> ∅)))))
            (Some (mk_sockaddr_in AF_INET (htons iPort) INADDR_ANY))
            (Some iMaxClients) None).
Proof.
  intros Hbad Hv.
  destruct (createServerSocket_returned o h iPort iMaxClients v Hbad Hv)
    as (Hfd & Hpos & _ & a1 & a2 & a3 & a4 & a5 & a6 & a7 & a8 & Hlog & Hans).
  destruct Hans as (H1 & H2 & H3 & H4 & H5 & H6 & H7 & H8).
  rewrite Hlog, fd_table_app. cbn [foldl].
  rewrite lookup_apply_listen by exact H8.
  rewrite lookup_apply_bind by exact H7.
  rewrite lookup_apply_setsockopt by exact H6.
  rewrite lookup_apply_setsockopt by exact H5.
  rewrite lookup_apply_setsockopt by exact H4.
  rewrite lookup_apply_setsockopt by exact H3.
  rewrite lookup_apply_setsockopt by lia.
  rewrite lookup_apply_socket by (exact H1 || lia).
  reflexivity.
Qed.

(** X12. Sizing the buffers of a server socket does not undo its set-up:
    when [createServerSocket] has returned a descriptor and
    [setSocketBufferSize] is then called on it, the four keep-alive options
    still read 1, 10, 5 and 3 afterwards and the socket is still bound to its
    address and listening with its backlog, whether the sizing returns or
    exits. *)
Theorem buffer_size_keeps_server_setup (o : os) (h : list event)
    (iPort iMaxClients v iRxSize iTxSize : Z) :
  rejects_bad_fd o ->
  (createServerSocket iPort iMaxClients o h).2 = Returned v ->
  let log1 := (createServerSocket iPort iMaxClients o h).1 in
  let log2 := (setSocketBufferSize v iRxSize iTxSize o log1).1 in
  getsockopt log2 v SOL_SOCKET SO_KEEPALIVE = Some 1
  /\ getsockopt log2 v IPPROTO_TCP TCP_KEEPIDLE = Some 10
  /\ getsockopt log2 v IPPROTO_TCP TCP_KEEPINTVL = Some 5
  /\ getsockopt log2 v IPPROTO_TCP TCP_KEEPCNT = Some 3
  /\ so_bound <$> fd_table log2 !! v
     = Some (Some (mk_sockaddr_in AF_INET (htons iPort) INADDR_ANY))
  /\ so_backlog <$> fd_table log2 !! v = Some (Some iMaxClients).
Proof.
  intros Hbad Hv log1 log2.
  pose proof (createServerSocket_table o h iPort iMaxClients v Hbad Hv) as Htab.
  fold log1 in Htab.
  destruct (setSocketBufferSize_frame_table o log1 v iRxSize iTxSize)
    as (_ & _ & Hopts & Hbound & Hbacklog & _).
  fold log2 in Hopts, Hbound, Hbacklog.
  unfold getsockopt. rewrite Hbound, Hbacklog.
  rewrite !Hopts.
  - rewrite Htab. repeat split; reflexivity.
  - intros Hin. repeat (apply elem_of_cons in Hin as [Hin | Hin]; [discriminate Hin|]).
    apply elem_of_nil in Hin. destruct Hin.
  - intros Hin. repeat (apply elem_of_cons in Hin as [Hin | Hin]; [discriminate Hin|]).
    apply elem_of_nil in Hin. destruct Hin.
  - intros Hin. repeat (apply elem_of_cons in Hin as [Hin | Hin]; [discriminate Hin|]).
    apply elem_of_nil in Hin. destruct Hin.
  - intros Hin. repeat (apply elem_of_cons in Hin as [Hin | Hin]; [discriminate Hin|]).
    apply elem_of_nil in Hin. destruct Hin.
Qed.

Lemma buffer_size_keeps_server_setup_witness :
  rejects_bad_fd os_up
  /\ (createServerSocket 12347 5 os_up []).2 = Returned 3
  /\ getsockopt
       (setSocketBufferSize 3 65536 65536 os_up (createServerSocket 12347 5 os_up []).1).1
       3 IPPROTO_TCP TCP_KEEPIDLE = Some 10.
Proof.
  assert (Hos : rejects_bad_fd os_up).
  { intros h fd level optname optval optlen Hfd. simpl.
    rewrite (proj2 (Z.ltb_lt fd 0) Hfd). reflexivity. }
  assert (Hv : (createServerSocket 12347 5 os_up []).2 = Returned 3) by reflexivity.
  split; [exact Hos|]. split; [exact Hv|].
  destruct (buffer_size_keeps_server_setup os_up [] 12347 5 3 65536 65536 Hos Hv)
    as (_ & Hidle & _).
  exact Hidle.
Defined.

(** ** createClientSocket: what the return value tells *)

Lemma lookup_apply_connect (t : gmap Z sock) (fd : Z) (addr : sockaddr_in)
    (addrlen : Z) (a : answer) :
  0 <= ret a ->
  apply_event t (sys_connect fd addr addrlen, a) !! fd
  = (fun s => mk_sock (so_opts s) (so_bound s) (so_backlog s) (Some addr)) <$> t !! fd.
Proof.
  intros Ha. unfold apply_event. cbn [fst snd].
  destruct (Z.leb_spec 0 (ret a)); [|lia]. apply lookup_alter_eq.
Qed.

(** X13. [createClientSocket] always returns, and its value is either -1
    or the descriptor of [socket]; it is non-negative exactly when the three
    steps succeeded.  A caller that tests the result for [>= 0] is therefore
    never handed a failure as a descriptor, and the descriptor it gets is
    open and connected to the address that [inet_pton] produced, with the
    port in network order. *)
Theorem createClientSocket_result (o : os) (h : list event) (kpchIp : string)
    (iPort : Z) :
  let c_sock := sys_socket AF_INET SOCK_STREAM 0 in
  let fd := ret (o h c_sock) in
  let parsed := answer_after o h [c_sock] (sys_inet_pton AF_INET kpchIp) in
  let addr := mk_sockaddr_in AF_INET (htons iPort) (out parsed) in
  let connected :=
    ret (answer_after o h [c_sock; sys_inet_pton AF_INET kpchIp]
           (sys_connect fd addr sizeof_sockaddr_in)) in
  let result := createClientSocket kpchIp iPort o h in
  exists v : Z,
    result.2 = Returned v
    /\ (v = -1 \/ v = fd)
    /\ (0 <= v <-> 0 <= fd /\ 0 < ret parsed /\ 0 <= connected)
    /\ (0 <= v ->
        exists s : sock,
          fd_table result.1 !! v = Some s
          /\ so_peer s = Some addr /\ so_bound s = None /\ so_backlog s = None).
Proof.
  unfold createClientSocket. run.
  next_test; [eexists; split; [reflexivity|]; repeat split; try lia; auto|].
  next_test; [eexists; split; [reflexivity|]; repeat split; try lia; auto|].
  next_test; [eexists; split; [reflexivity|]; repeat split; try lia; auto|].
  eexists. split; [reflexivity|]. split; [right; reflexivity|]. split; [lia|].
  intros _. cbn [fst]. rewrite !fd_table_snoc.
  rewrite lookup_apply_connect by assumption.
  rewrite (apply_event_inert _ (sys_inet_pton AF_INET kpchIp, _)) by reflexivity.
  rewrite lookup_apply_socket by (reflexivity || assumption).
  eexists. split; [reflexivity|]. repeat split.
Qed.

Lemma createClientSocket_result_witness :
  exists s : sock,
    fd_table (createClientSocket "127.0.0.1" 12347 os_up []).1 !! 3 = Some s
    /\ so_peer s = Some (mk_sockaddr_in AF_INET (htons 12347) [x7f; x00; x00; x01]).
Proof.
  destruct (createClientSocket_result os_up [] "127.0.0.1" 12347)
    as (v & Hv & _ & _ & Hopen).
  assert (H3 : v = 3) by (simpl in Hv; congruence).
  subst v. destruct Hopen as (s & Hs & Hpeer & _); [lia|].
  exists s. split; [exact Hs | exact Hpeer].
Defined.

(** ** The port argument *)

Lemma htons_mod (p : Z) : htons p = htons (p mod 2 ^ 16).
Proof. unfold htons. rewrite Z.mod_mod by lia. reflexivity. Qed.

(** X14. The port, an [int], goes through [htons], which keeps its low 16
    bits: two ports give the same [sin_port] exactly when they are equal
    modulo 65536 (so ports from 0 to 65535 are told apart), and then
    [isPortAvailable], [createServerSocket] and [createClientSocket] behave
    the same for the one as for the other: port 65536 + p probes, binds or
    connects to port p. *)
Theorem port_modulo_65536 (p q : Z) :
  (htons p = htons q <-> p mod 2 ^ 16 = q mod 2 ^ 16)
  /\ (p mod 2 ^ 16 = q mod 2 ^ 16 ->
      (forall (o : os) (h : list event),
          isPortAvailable p o h = isPortAvailable q o h)
      /\ (forall (iMaxClients : Z) (o : os) (h : list event),
          createServerSocket p iMaxClients o h = createServerSocket q iMaxClients o h)
      /\ (forall (kpchIp : string) (o : os) (h : list event),
          createClientSocket kpchIp p o h = createClientSocket kpchIp q o h)).
Proof.
  assert (Hiff : htons p = htons q <-> p mod 2 ^ 16 = q mod 2 ^ 16).
  { split.
    - intros Heq. rewrite (htons_mod p), (htons_mod q) in Heq.
      apply (f_equal ntohs) in Heq.
      rewrite !ntohs_htons in Heq by (apply Z.mod_pos_bound; lia). exact Heq.
    - intros Heq. rewrite (htons_mod p), (htons_mod q), Heq. reflexivity. }
  split; [exact Hiff|]. intros Hmod. apply Hiff in Hmod.
  unfold isPortAvailable, createServerSocket, createClientSocket.
  rewrite Hmod. repeat split.
Qed.

Lemma port_modulo_65536_witness :
  createServerSocket (65536 + 12347) 5 os_up [] = createServerSocket 12347 5 os_up [].
Proof.
  destruct (port_modulo_65536 (65536 + 12347) 12347) as [_ Hsame].
  destruct Hsame as (_ & Hserver & _); [reflexivity|].
  apply Hserver.
Defined.

(** ** The timeout argument *)

(** X15. For a timeout between -2147483 and 2147483 ms the product does not
    overflow and [select] is handed [tv_sec = 0] and [tv_usec = 1000 *
    timeout]; that is a valid [timeval], with a microsecond field from 0 to
    999999, exactly when the timeout is between 0 and 999 ms.  A negative
    timeout gives a negative microsecond field. *)
Theorem timeout_valid_below_one_second (iTimeoutMsec : Z) :
  -2147483 <= iTimeoutMsec <= 2147483 ->
  let tv := timeout_of iTimeoutMsec in
  tv_sec tv = 0
  /\ tv_usec tv = iTimeoutMsec * 1000
  /\ (0 <= tv_usec tv < 1000000 <-> 0 <= iTimeoutMsec <= 999)
  /\ (iTimeoutMsec < 0 -> tv_usec tv < 0).
Proof.
  intros Hms tv. unfold tv, timeout_of. cbn [tv_sec tv_usec].
  rewrite to_int_id by (unfold in_int, INT_MIN, INT_MAX; lia).
  repeat split; lia.
Qed.

Lemma timeout_valid_below_one_second_witness :
  tv_usec (timeout_of 300) = 300000 /\ tv_usec (timeout_of (-1)) < 0.
Proof.
  destruct (timeout_valid_below_one_second 300 ltac:(lia)) as (_ & Hu & _).
  destruct (timeout_valid_below_one_second (-1) ltac:(lia)) as (_ & _ & _ & Hneg).
  split; [exact Hu | apply Hneg; lia].
Defined.

(** ** checkClientConnections: how many calls, and which descriptors stay open *)

Lemma calls_of_app (l1 l2 : list event) :
  calls_of (l1 ++ l2) = calls_of l1 ++ calls_of l2.
Proof. unfold calls_of. apply fmap_app. Qed.

Lemma count_in_app (p : call -> bool) (cs1 cs2 : list call) :
  count_in p (cs1 ++ cs2) = (count_in p cs1 + count_in p cs2)%nat.
Proof. unfold count_in. rewrite filter_app, length_app. reflexivity. Qed.

Lemma occupied_cons (fd : Z) (arr : list Z) :
  occupied (fd :: arr) = ((if decide (fd = 0%Z) then 0 else 1) + occupied arr)%nat.
Proof.
  unfold occupied. rewrite filter_cons.
  destruct (decide (fd = 0)) as [Hz | Hnz].
  - rewrite decide_False by (intros Hne; apply Hne; exact Hz). reflexivity.
  - rewrite decide_True by exact Hnz. reflexivity.
Qed.

Lemma take_drop_step (arr : list Z) (i n : nat) (fd : Z) :
  arr !! i = Some fd ->
  take (S n) (drop i arr) = fd :: take n (drop (S i) arr).
Proof. intros Hi. rewrite (drop_S _ _ _ Hi). reflexivity. Qed.

Lemma check_loop_counts (o : os) (n : nat) :
  forall (i : nat) (arr : list Z) (h : list event),
    (i + n <= length arr)%nat ->
    exists (log : list event) (arr' : list Z),
      check_loop n i arr o h = (h ++ log, Returned arr')
      /\ length arr' = length arr
      /\ (forall j : nat, (j < i)%nat -> arr' !! j = arr !! j)
      /\ count_in is_recv (calls_of log) = occupied (take n (drop i arr))
      /\ (count_in is_close (calls_of log) + occupied (take n (drop i arr'))
          = occupied (take n (drop i arr)))%nat.
Proof.
  induction n as [|n IH]; intros i arr h Hlen.
  - exists [], arr. cbn [check_loop]. unfold mreturn. rewrite app_nil_r.
    repeat split; reflexivity.
  - destruct (lookup_lt_is_Some_2 arr i ltac:(lia)) as [fd Hi].
    destruct (check_slot_run o h arr i fd Hi) as (Hzero & Hgone & Hlive).
    cbn [check_loop]. unfold and_then.
    rewrite (take_drop_step arr i n fd Hi), occupied_cons.
    destruct (decide (fd = 0)) as [Hfd | Hfd].
    + rewrite (Hzero Hfd).
      destruct (IH (S i) arr h ltac:(lia)) as (log & arr' & -> & Hlen' & Hfr & Hrecv & Hclose).
      exists log, arr'. split; [reflexivity|]. split; [exact Hlen'|].
      split; [intros j Hj; apply Hfr; lia|]. split; [exact Hrecv|].
      assert (Hi' : arr' !! i = Some fd) by (rewrite Hfr by lia; exact Hi).
      rewrite (take_drop_step arr' i n fd Hi'), occupied_cons.
      rewrite decide_True by exact Hfd. exact Hclose.
    + destruct (decide (to_int (ret (o h (peek fd))) = 0)) as [Hr | Hr].
      * rewrite (Hgone Hfd Hr), play_events.
        assert (Hlen1 : length (<[i := 0]> arr) = length arr) by apply length_insert.
        destruct (IH (S i) (<[i := 0]> arr) (h ++ events o h (disconnect_calls fd))
                    ltac:(lia)) as (log & arr' & -> & Hlen' & Hfr & Hrecv & Hclose).
        rewrite drop_insert_lt in Hrecv, Hclose by lia.
        exists (events o h (disconnect_calls fd) ++ log), arr'.
        split; [rewrite app_assoc; reflexivity|]. split; [lia|].
        split; [intros j Hj; rewrite Hfr by lia; apply list_lookup_insert_ne; lia|].
        rewrite calls_of_app, calls_of_events, !count_in_app, Hrecv.
        split; [reflexivity|].
        assert (Hi' : arr' !! i = Some 0).
        { rewrite Hfr by lia. apply list_lookup_insert_eq.
          apply (lookup_lt_Some _ _ _ Hi). }
        rewrite (take_drop_step arr' i n 0 Hi'), occupied_cons.
        rewrite decide_True by reflexivity.
        change (count_in is_close (disconnect_calls fd)) with 1%nat. lia.
      * rewrite (Hlive Hfd Hr), play_events.
        destruct (IH (S i) arr (h ++ events o h [peek fd]) ltac:(lia))
          as (log & arr' & -> & Hlen' & Hfr & Hrecv & Hclose).
        exists (events o h [peek fd] ++ log), arr'.
        split; [rewrite app_assoc; reflexivity|]. split; [exact Hlen'|].
        split; [intros j Hj; apply Hfr; lia|].
        rewrite calls_of_app, calls_of_events, !count_in_app, Hrecv.
        split; [reflexivity|].
        assert (Hi' : arr' !! i = Some fd) by (rewrite Hfr by lia; exact Hi).
        rewrite (take_drop_step arr' i n fd Hi'), occupied_cons.
        rewrite decide_False by exact Hfd.
        change (count_in is_close [peek fd]) with 0%nat. lia.
Qed.

(** X16. Let the array hold at least [iMaxClients] slots.  The scan makes
    exactly one peek per occupied slot among the first [iMaxClients], and
    none for an empty slot; and it makes exactly as many [close] calls as
    slots went from occupied to empty: the occupied slots before are the
    occupied slots after plus the closes. *)
Theorem checkClientConnections_counts (o : os) (h : list event)
    (piClientSockets : list Z) (iMaxClients : Z) :
  (Z.to_nat iMaxClients <= length piClientSockets)%nat ->
  exists (log : list event) (arr' : list Z),
    checkClientConnections piClientSockets iMaxClients o h = (h ++ log, Returned arr')
    /\ count_in is_recv (calls_of log)
       = occupied (take (Z.to_nat iMaxClients) piClientSockets)
    /\ (count_in is_close (calls_of log) + occupied (take (Z.to_nat iMaxClients) arr')
        = occupied (take (Z.to_nat iMaxClients) piClientSockets))%nat.
Proof.
  intros Hlen. unfold checkClientConnections.
  destruct (check_loop_counts o (Z.to_nat iMaxClients) 0 piClientSockets h Hlen)
    as (log & arr' & Hrun & _ & _ & Hrecv & Hclose).
  exists log, arr'. split; [exact Hrun|]. split; [exact Hrecv | exact Hclose].
Qed.

Lemma checkClientConnections_counts_witness :
  (Z.to_nat 3 <= length [4; 0; 5])%nat
  /\ exists (log : list event) (arr' : list Z),
      checkClientConnections [4; 0; 5] 3 os_clients [] = ([] ++ log, Returned arr')
      /\ count_in is_recv (calls_of log) = 2%nat.
Proof.
  assert (Hlen : (Z.to_nat 3 <= length [4; 0; 5])%nat) by (simpl; lia).
  split; [exact Hlen|].
  destruct (checkClientConnections_counts os_clients [] [4; 0; 5] 3 Hlen)
    as (log & arr' & Hrun & Hrecv & _).
  exists log, arr'. split; [exact Hrun | exact Hrecv].
Defined.

Lemma elem_of_concat_2 {A : Type} (x : A) (l : list A) (ls : list (list A)) :
  x ∈ l -> l ∈ ls -> x ∈ concat ls.
Proof.
  intros Hx Hl. induction ls as [|l' ls IH]; cbn [concat].
  - apply elem_of_nil in Hl. destruct Hl.
  - apply elem_of_app. apply elem_of_cons in Hl as [<- | Hl]; [left | right; apply IH]; assumption.
Qed.

(** After events that are prints, transfers and closes, a descriptor is
    open exactly when it was open before and no [close] named it. *)
Lemma is_open_after_closes (h log : list event) (fd : Z) :
  (forall e : event, e ∈ log -> is_inert e.1 = true \/ is_close e.1 = true) ->
  (is_open (h ++ log) fd <-> is_open h fd /\ sys_close fd ∉ calls_of log).
Proof.
  induction log as [|e log IH] using rev_ind; intros Hlog.
  - rewrite app_nil_r. split; [intros Ho; split; [exact Ho | apply not_elem_of_nil] | tauto].
  - assert (Hpre : forall e' : event, e' ∈ log ->
                     is_inert e'.1 = true \/ is_close e'.1 = true).
    { intros e' He'. apply Hlog. apply elem_of_app. left. exact He'. }
    specialize (IH Hpre).
    assert (He : is_inert e.1 = true \/ is_close e.1 = true).
    { apply Hlog. apply elem_of_app. right. left. }
    rewrite app_assoc. unfold is_open in *. rewrite fd_table_snoc.
    rewrite calls_of_app. cbn [calls_of fmap list_fmap].
    rewrite not_elem_of_app, list_elem_of_singleton.
    destruct He as [He | He].
    + rewrite (apply_event_inert _ e He). rewrite IH.
      split; [intros [Ho Hc]; repeat split; try assumption | tauto].
      intros Heq. rewrite <- Heq in He. discriminate He.
    + destruct e as [c a]. cbn [fst] in *. destruct c; try discriminate He.
      unfold apply_event. cbn [fst snd]. rewrite lookup_delete.
      destruct (decide (fd0 = fd)) as [-> | Hne].
      * split; [intros [? ?]; discriminate | intros (_ & _ & Hc); exfalso; apply Hc; reflexivity].
      * rewrite IH. split; [intros [Ho Hc]; repeat split; try assumption | tauto].
        intros [= ->]. apply Hne. reflexivity.
Qed.

(** The closes of a scan are the slots it empties. *)
Lemma check_loop_closes (o : os) (h : list event) (arr : list Z) (n : nat) :
  (n <= length arr)%nat ->
  exists (log : list event) (arr' : list Z),
    check_loop n 0 arr o h = (h ++ log, Returned arr')
    /\ (forall e : event, e ∈ log -> is_inert e.1 = true \/ is_close e.1 = true)
    /\ (forall fd : Z,
          sys_close fd ∈ calls_of log <->
          exists k : nat,
            (k < n)%nat /\ arr !! k = Some fd /\ fd <> 0 /\ arr' !! k = Some 0)
    /\ (forall (k : nat) (fd : Z),
          (k < n)%nat -> arr !! k = Some fd ->
          arr' !! k = Some fd \/ arr' !! k = Some 0).
Proof.
  intros Hlen.
  destruct (check_loop_ok o n 0 arr h Hlen)
    as (segs & arr' & Hrun & Hsegs & _ & _ & Hslots).
  cbn [Nat.add] in Hslots.
  exists (concat segs), arr'. split; [exact Hrun|].
  assert (Hseg : forall (e : event) (seg : list event),
            e ∈ seg -> seg ∈ segs ->
            exists (k : nat) (fd : Z),
              (k < n)%nat /\ arr !! k = Some fd /\ segs !! k = Some seg
              /\ slot_ok o (h ++ concat (take k segs)) fd seg (arr' !! k)).
  { intros e seg He Hin. apply list_elem_of_lookup_1 in Hin as [k Hk].
    pose proof (lookup_lt_Some _ _ _ Hk) as Hlt. rewrite Hsegs in Hlt.
    destruct (lookup_lt_is_Some_2 arr k ltac:(lia)) as [fd Hfd].
    exists k, fd. split; [exact Hlt|]. split; [exact Hfd|]. split; [exact Hk|].
    apply Hslots; assumption. }
  split; [|split].
  - intros e He. apply elem_of_concat in He as (seg & He & Hin).
    destruct (Hseg e seg He Hin) as (k & fd & _ & _ & _ & Hok).
    destruct (slot_ok_calls _ _ _ _ _ Hok e He) as [_ Hcall].
    unfold disconnect_calls, peek in Hcall.
    repeat (apply elem_of_cons in Hcall as [-> | Hcall]; [auto|]).
    apply elem_of_nil in Hcall. destruct Hcall.
  - intros fd. split.
    + intros Hc. unfold calls_of in Hc.
      apply list_elem_of_fmap_1 in Hc as (e & He1 & He).
      apply elem_of_concat in He as (seg & He & Hin).
      destruct (Hseg e seg He Hin) as (k & fd' & Hk & Hfd' & _ & Hok).
      destruct (slot_ok_calls _ _ _ _ _ Hok e He) as [Hnz Hcall].
      assert (fd = fd').
      { apply (disconnect_calls_fd fd' fd e.1 Hcall). rewrite <- He1. reflexivity. }
      subst fd'. exists k. repeat split; try assumption.
      destruct Hok as [_ Hlive]. destruct (Hlive Hnz) as [Hgone Hstay].
      destruct (decide (to_int (ret (o (h ++ concat (take k segs)) (peek fd))) = 0))
        as [Hr | Hr]; [apply (Hgone Hr)|].
      destruct (Hstay Hr) as [Hs _]. exfalso.
      assert (Hin' : e.1 ∈ calls_of seg) by (apply list_elem_of_fmap_2; exact He).
      rewrite Hs, calls_of_events, <- He1 in Hin'.
      apply list_elem_of_singleton in Hin'. discriminate Hin'.
    + intros (k & Hk & Hfd & Hnz & Hz).
      destruct (lookup_lt_is_Some_2 segs k ltac:(lia)) as [seg Hsk].
      pose proof (Hslots k fd seg Hfd Hsk) as [_ Hlive].
      destruct (Hlive Hnz) as [Hgone Hstay].
      destruct (decide (to_int (ret (o (h ++ concat (take k segs)) (peek fd))) = 0))
        as [Hr | Hr].
      * destruct (Hgone Hr) as [Hs _].
        assert (Hc : sys_close fd ∈ calls_of seg).
        { rewrite Hs, calls_of_events. unfold disconnect_calls.
          do 3 right. left. }
        unfold calls_of in Hc |- *.
        apply list_elem_of_fmap_1 in Hc as (e & He1 & He).
        rewrite He1. apply list_elem_of_fmap_2.
        apply (elem_of_concat_2 e seg); [exact He|].
        apply (list_elem_of_lookup_2 _ k). exact Hsk.
      * destruct (Hstay Hr) as [_ Hkeep]. rewrite Hz in Hkeep.
        injection Hkeep as Hkeep. congruence.
  - intros k fd Hk Hfd.
    destruct (lookup_lt_is_Some_2 segs k ltac:(lia)) as [seg Hsk].
    apply (slot_ok_final _ _ _ _ _ (Hslots k fd seg Hfd Hsk)).
Qed.

(** X17. Let the array hold at least [iMaxClients] slots and let no
    descriptor be stored in two of them.  Then the scan keeps the array and
    the descriptor table in step: each occupied slot either keeps its
    descriptor, which is then open afterwards exactly if it was before, or
    is emptied, and then its descriptor is not open afterwards; and a
    descriptor that is in none of the slots is open afterwards exactly if it
    was before.  So if every occupied slot held an open descriptor before
    the scan, the same is true after it, and nothing else was closed. *)
Theorem checkClientConnections_keeps_open (o : os) (h : list event)
    (piClientSockets : list Z) (iMaxClients : Z) :
  let n := Z.to_nat iMaxClients in
  (n <= length piClientSockets)%nat ->
  (forall (i j : nat) (fd : Z),
      (i < n)%nat -> (j < n)%nat ->
      piClientSockets !! i = Some fd -> piClientSockets !! j = Some fd ->
      fd <> 0 -> i = j) ->
  exists (log : list event) (arr' : list Z),
    checkClientConnections piClientSockets iMaxClients o h = (h ++ log, Returned arr')
    /\ (forall (i : nat) (fd : Z),
          (i < n)%nat -> piClientSockets !! i = Some fd -> fd <> 0 ->
          (arr' !! i = Some fd /\ (is_open (h ++ log) fd <-> is_open h fd))
          \/ (arr' !! i = Some 0 /\ ~ is_open (h ++ log) fd))
    /\ (forall fd : Z,
          (forall i : nat, (i < n)%nat -> piClientSockets !! i <> Some fd) ->
          (is_open (h ++ log) fd <-> is_open h fd)).
Proof.
  intros n Hlen Hdistinct. unfold checkClientConnections. fold n.
  destruct (check_loop_closes o h piClientSockets n Hlen)
    as (log & arr' & Hrun & Hkinds & Hcloses & Hfinal).
  exists log, arr'. split; [exact Hrun|]. split.
  - intros i fd Hi Hfd Hnz.
    pose proof (is_open_after_closes h log fd Hkinds) as Hopen.
    destruct (Hfinal i fd Hi Hfd) as [Hkeep | Hnull].
    + left. split; [exact Hkeep|]. rewrite Hopen.
      split; [tauto|]. intros Ho. split; [exact Ho|].
      intros Hc. apply Hcloses in Hc as (k & Hk & Hfdk & _ & Hz).
      assert (i = k) by (apply (Hdistinct i k fd); assumption). subst k.
      rewrite Hkeep in Hz. injection Hz as Hz. contradiction.
    + right. split; [exact Hnull|]. rewrite Hopen. intros [_ Hc]. apply Hc.
      apply Hcloses. exists i. repeat split; assumption.
  - intros fd Hnone.
    rewrite (is_open_after_closes h log fd Hkinds).
    split; [tauto|]. intros Ho. split; [exact Ho|].
    intros Hc. apply Hcloses in Hc as (k & Hk & Hfdk & _).
    apply (Hnone k Hk). exact Hfdk.
Qed.

Lemma checkClientConnections_keeps_open_witness :
  exists (log : list event) (arr' : list Z),
    checkClientConnections [4; 0; 5] 3 os_clients [] = ([] ++ log, Returned arr')
    /\ (is_open ([] ++ log) 7 <-> is_open [] 7).
Proof.
  destruct (checkClientConnections_keeps_open os_clients [] [4; 0; 5] 3)
    as (log & arr' & Hrun & _ & Hother).
  - simpl. lia.
  - intros i j fd Hi Hj Hfi Hfj Hnz.
    destruct i as [|[|[|i]]]; destruct j as [|[|[|j]]];
      simpl in Hi, Hj, Hfi, Hfj; try lia; congruence.
  - exists log, arr'. split; [exact Hrun|]. apply Hother.
    intros i Hi. destruct i as [|[|[|i]]]; simpl in Hi |- *; try lia; discriminate.
Defined.

(** The condition on the array in X17 is needed: a descriptor stored in two
    slots is closed when the first is scanned and stays in the second. *)
Remark checkClientConnections_duplicate_descriptor :
  (checkClientConnections [4; 4] 2 os_stale []).2 = Returned [0; 4]
  /\ fd_table (checkClientConnections [4; 4] 2 os_stale []).1 !! 4 = None.
Proof. split; reflexivity. Qed.

Lemma check_loop_empty (o : os) (n : nat) :
  forall (i : nat) (arr : list Z) (h : list event),
    (forall k : nat, (k < n)%nat -> arr !! (i + k)%nat = Some 0) ->
    check_loop n i arr o h = (h, Returned arr).
Proof.
  induction n as [|n IH]; intros i arr h Hzero; [reflexivity|].
  cbn [check_loop]. unfold and_then.
  assert (Hi : arr !! i = Some 0)
    by (rewrite <- (Nat.add_0_r i); apply Hzero; lia).
  destruct (check_slot_run o h arr i 0 Hi) as (Hrun & _ & _).
  rewrite (Hrun eq_refl). apply IH.
  intros k Hk. replace (S i + k)%nat with (i + S k)%nat by lia. apply Hzero. lia.
Qed.

(** X18. A scan over empty slots does nothing: if each of the first
    [iMaxClients] slots holds 0 (in particular if [iMaxClients] is 0 or
    negative), [checkClientConnections] makes no call at all and returns the
    array as it was. *)
Theorem checkClientConnections_empty (o : os) (h : list event)
    (piClientSockets : list Z) (iMaxClients : Z) :
  (forall i : nat, (i < Z.to_nat iMaxClients)%nat -> piClientSockets !! i = Some 0) ->
  checkClientConnections piClientSockets iMaxClients o h
  = (h, Returned piClientSockets).
Proof.
  intros Hzero. unfold checkClientConnections. apply check_loop_empty.
  intros k Hk. apply Hzero. exact Hk.
Qed.

Lemma checkClientConnections_empty_witness :
  checkClientConnections [0; 0; 7] 2 os_clients [] = ([], Returned [0; 0; 7])
  /\ checkClientConnections [4; 5] (-1) os_clients [] = ([], Returned [4; 5]).
Proof.
  split.
  - apply checkClientConnections_empty.
    intros i Hi. destruct i as [|[|i]]; simpl in Hi |- *; try lia; reflexivity.
  - apply checkClientConnections_empty. intros i Hi. simpl in Hi. lia.
Defined.

Lemma check_slot_outside (o : os) (h : list event) (arr : list Z) (i : nat) :
  (length arr <= i)%nat -> check_slot arr i o h = (h, Fault).
Proof.
  intros Hi. unfold check_slot, load. rewrite (lookup_ge_None_2 _ _ Hi). reflexivity.
Qed.

Lemma check_loop_outside (o : os) (n : nat) :
  forall (i : nat) (arr : list Z) (h : list event),
    (i <= length arr)%nat -> (length arr < i + n)%nat ->
    check_loop n i arr o h = ((check_loop (length arr - i) i arr o h).1, Fault).
Proof.
  induction n as [|n IH]; intros i arr h Hi Hn; [lia|].
  cbn [check_loop]. unfold and_then.
  destruct (decide (i = length arr)) as [-> | Hne].
  - rewrite check_slot_outside by lia. rewrite Nat.sub_diag. reflexivity.
  - destruct (lookup_lt_is_Some_2 arr i ltac:(lia)) as [fd Hfd].
    destruct (check_slot_ok o h arr i fd Hfd) as (seg & arr1 & Hrun & Hlen1 & _ & _).
    rewrite Hrun. rewrite IH by lia.
    replace (length arr - i)%nat with (S (length arr - S i)) by lia.
    cbn [check_loop]. unfold and_then. rewrite Hrun, Hlen1. reflexivity.
Qed.

(** X19. The function does not know the length of the array: when
    [iMaxClients] exceeds it, the scan treats every slot of the array as
    usual (same calls as a scan of exactly the array) and then reads the
    slot just past its end, which the embedding reports as a [Fault]. *)
Theorem checkClientConnections_past_the_end (o : os) (h : list event)
    (piClientSockets : list Z) (iMaxClients : Z) :
  (length piClientSockets < Z.to_nat iMaxClients)%nat ->
  (checkClientConnections piClientSockets iMaxClients o h).2 = Fault
  /\ (checkClientConnections piClientSockets iMaxClients o h).1
     = (checkClientConnections piClientSockets
          (Z.of_nat (length piClientSockets)) o h).1.
Proof.
  intros Hlen. unfold checkClientConnections.
  rewrite (check_loop_outside o (Z.to_nat iMaxClients) 0 piClientSockets h)
    by lia.
  rewrite Nat2Z.id, Nat.sub_0_r. split; reflexivity.
Qed.

Lemma checkClientConnections_past_the_end_witness :
  (length [4; 0] < Z.to_nat 3)%nat
  /\ (checkClientConnections [4; 0] 3 os_clients []).2 = Fault.
Proof.
  assert (Hlen : (length [4; 0] < Z.to_nat 3)%nat) by (simpl; lia).
  split; [exact Hlen|].
  destruct (checkClientConnections_past_the_end os_clients [] [4; 0] 3 Hlen) as [Hf _].
  exact Hf.
Defined.

(** X20. Where the stream takes the payload whole and hands it over whole,
    the two wrappers add nothing and lose nothing: for a payload of N bytes
    with N at most [INT_MAX], if [send] accepts N bytes and the [recv] of
    the peer delivers them, [sendMessage] returns N and [recvMsgBlocking]
    returns N with the payload at the start of the buffer, after one [send]
    and one [recv].  The bound is needed: the result is an [int], so for a
    longer payload no answer of the system makes [sendMessage] return N. *)
Theorem round_trip_when_delivered (o : os) (h : list event) (iSock iPeer : Z)
    (payload pvBuffer : list byte) (iLength : Z) :
  let N := Z.of_nat (length payload) in
  let c_send := sys_send iSock payload N 0 in
  let c_recv := sys_recv iPeer iLength 0 in
  let sent := sendMessage iSock payload N o h in
  let got := recvMsgBlocking iPeer pvBuffer iLength o sent.1 in
  (N <= INT_MAX ->
   ret (o h c_send) = N ->
   o (play o h [c_send]) c_recv = mk_answer N payload ->
   sent = (play o h [c_send], Returned N)
   /\ got = (play o h [c_send; c_recv],
             Returned (N, payload ++ drop (length payload) pvBuffer)))
  /\ (INT_MAX < N -> sent.2 <> Returned N).
Proof.
  intros N c_send c_recv sent got.
  assert (HN : 0 <= N) by (unfold N; lia).
  destruct (sendMessage_run o h iSock payload N) as [Hfail Hok].
  fold c_send in Hfail, Hok. cbn zeta in Hfail, Hok.
  split.
  - intros Hfit Hsend Hrecv.
    assert (Hsent : sent = (play o h [c_send], Returned N)).
    { unfold sent. rewrite Hok by lia. rewrite Hsend.
      rewrite to_int_id by (unfold in_int, INT_MIN, INT_MAX in *; lia).
      reflexivity. }
    split; [exact Hsent|].
    unfold got. rewrite Hsent. cbn [fst].
    destruct (recvMsgBlocking_run o (play o h [c_send]) iPeer pvBuffer iLength)
      as [_ Hgot].
    fold c_recv in Hgot. cbn zeta in Hgot. rewrite Hrecv in Hgot.
    cbn [ret out] in Hgot. rewrite Hgot by lia.
    rewrite to_int_id by (unfold in_int, INT_MIN, INT_MAX in *; lia).
    reflexivity.
  - intros Hbig. unfold sent.
    destruct (Z.lt_ge_cases (ret (o h c_send)) 0) as [Hneg | Hpos].
    + rewrite Hfail by exact Hneg. cbn [snd]. intros Heq.
      injection Heq as Heq. lia.
    + rewrite Hok by exact Hpos. cbn [snd]. intros Heq.
      injection Heq as Heq.
      pose proof (to_int_range (ret (o h c_send))) as Hr.
      unfold in_int in Hr. lia.
Qed.

Lemma round_trip_when_delivered_witness :
  (sendMessage 3 (list_byte_of_string "Hello") 5 os_segmented []).2 = Returned 5
  /\ (recvMsgBlocking 4 (repeat x00 8) 8 os_segmented
        (sendMessage 3 (list_byte_of_string "Hello") 5 os_segmented []).1).2
     = Returned (5, list_byte_of_string "Hello" ++ repeat x00 3).
Proof.
  destruct (round_trip_when_delivered os_segmented [] 3 4
              (list_byte_of_string "Hello") (repeat x00 8) 8) as [Hwhole _].
  destruct Hwhole as [Hsent Hgot];
    [unfold INT_MAX; simpl; lia | reflexivity | reflexivity |].
  split.
  - exact (f_equal snd Hsent).
  - exact (f_equal snd Hgot).
Defined.
